(** * A shallow embedding of [app/server.py]

    The service wraps a pretrained sentence-embedding model and a pretrained
    probabilistic classifier behind two HTTP endpoints and writes one log
    record per served prediction.  The third-party objects (the embedding
    model, the unpickled classifier, the clocks) are parameters of the
    development; everything the repository itself writes (the featurizer
    loop, the two classifier methods, the handlers, the lifecycle hooks) is
    translated function by function. *)

From Stdlib Require Import QArith Qcanon Qcabs.
From stdpp Require Import base list strings numbers pretty.

Set Warnings "-register-all".

Open Scope string_scope.
Open Scope list_scope.

(** ** Python values *)

(** The values that travel through the handlers: parsed JSON bodies, the
    dictionaries built by [predict] and the message handed to the logger.
    A Python [float] that is finite is a rational number, which is how
    [PFloat] carries it. *)
Inductive pyval : Type :=
  | PNone
  | PBool (b : bool)
  | PInt (z : Z)
  | PFloat (q : Qc)
  | PStr (s : string)
  | PList (l : list pyval)
  | PDict (d : list (string * pyval)).

(** A [dict] with string keys, in insertion order.  Keys are unique in every
    dictionary built by [setitem]. *)
Definition dict (A : Type) : Type := list (string * A).

Module Dict.
Section ops.
Context {A : Type}.

Definition keys (d : dict A) : list string := d.*1.
Definition values (d : dict A) : list A := d.*2.

(** [d.get(k)] *)
Fixpoint get (k : string) (d : dict A) : option A :=
  match d with
  | [] => None
  | (k', v) :: d' => if decide (k' = k) then Some v else get k d'
  end.

(** [d[k] = v]: an existing key keeps its position and takes the new
    value, a new key goes last. *)
Fixpoint setitem (k : string) (v : A) (d : dict A) : dict A :=
  match d with
  | [] => [(k, v)]
  | (k', v') :: d' =>
      if decide (k' = k) then (k', v) :: d' else (k', v') :: setitem k v d'
  end.

(** [d.update(pairs)] *)
Definition update (d : dict A) (pairs : list (string * A)) : dict A :=
  foldl (λ acc kv, setitem kv.1 kv.2 acc) d pairs.

(** [dict(pairs)] *)
Definition of_pairs (pairs : list (string * A)) : dict A := update [] pairs.
End ops.
End Dict.

(** [zip(xs, ys)] stops at the shorter argument, as stdpp's [zip] does. *)
Definition py_zip {A B} (xs : list A) (ys : list B) : list (A * B) := zip xs ys.

(** ** Exceptions *)

Inductive exn : Type :=
  | KeyError (key : string)
  | IndexError
  | LibraryError (what : string).

(** ** Numbers *)

(** The exact sum of a row of numbers. *)
Definition Qc_sum (l : list Qc) : Qc := foldr Qcplus 0%Qc l.

(** ** The third-party objects *)

(** An embedding, as [SentenceTransformer.encode] returns it. *)
Definition vector : Type := list Qc.

(** [sentence_transformers.SentenceTransformer]: only [encode] is called,
    one document at a time.  It may raise. *)
Record SentenceTransformer : Type := {
  encode : string → exn + vector
}.

(** The unpickled scikit-learn classifier: the final step of the pipeline.
    [clf_predict_proba] returns one row per sample, [clf_predict] one label
    per sample; either may raise. *)
Record Estimator : Type := {
  clf_predict_proba : list vector → exn + list (list Qc);
  clf_predict : list vector → exn + list string;
  clf_classes_ : list string
}.

(** ** Configuration *)

Record FeaturizerConfig : Type := {
  sentence_transformer_model_name : string;
  sentence_transformer_embedding_dim : nat
}.

Record Config : Type := {
  cfg_featurizer : FeaturizerConfig;
  serialized_model_path : string;
  log_destination : string
}.

Definition GLOBAL_CONFIG : Config := {|
  cfg_featurizer := {|
    sentence_transformer_model_name := "all-mpnet-base-v2";
    sentence_transformer_embedding_dim := 768
  |};
  serialized_model_path := "../data/news_classifier.joblib";
  log_destination := "../data/logs.out"
|}.

(** ** Request and response models *)

Record PredictRequest : Type := {
  source : string;
  url : string;
  title : string;
  description : string
}.

Record PredictResponse : Type := {
  scores : dict pyval;
  label : string
}.

(** [request.dict()] *)
Definition PredictRequest_dict (r : PredictRequest) : dict string :=
  [("source", source r); ("url", url r); ("title", title r);
   ("description", description r)].

Definition py_of_str_dict (d : dict string) : pyval :=
  PDict (prod_map id PStr <$> d).

Definition py_of_float_dict (d : dict Qc) : pyval :=
  PDict (prod_map id PFloat <$> d).

(** ** Process state and effects *)

(** Calls that reach the model artifact, in the order they are made. *)
Inductive event : Type :=
  | EvEncode (doc : string)
  | EvPredictProba (X : list vector)
  | EvPredict (X : list vector).

(** What the logger hands to a sink.  The message of a record is the value
    passed to [logger.info]; a sink prints it with [str]. *)
Record log_entry : Type := {
  level : string;
  message : pyval
}.

Record State : Type := {
  trace : list event;
  file_sinks : nat;
  logfile : list log_entry;
  stderr : list log_entry;
  ticks : nat
}.

(** Computations that read and write the process state and may raise. *)
Definition M (A : Type) : Type := State → (exn + A) * State.

#[export] Instance M_ret : MRet M := λ A x s, (inr x, s).

#[export] Instance M_bind : MBind M := λ A B f m s,
  match m s with
  | (inl e, s') => (inl e, s')
  | (inr a, s') => f a s'
  end.

Definition raise {A} (e : exn) : M A := λ s, (inl e, s).

(** Lift the outcome of a call into a library. *)
Definition lift {A} (r : exn + A) : M A := λ s, (r, s).

(** The state once the calls [evs] have been made. *)
Definition add_events (evs : list event) (s : State) : State :=
  {| trace := trace s ++ evs; file_sinks := file_sinks s;
     logfile := logfile s; stderr := stderr s; ticks := ticks s |}.

Definition emit (ev : event) : M unit := λ s, (inr (), add_events [ev] s).

(** [logger.add(path)]: one more sink writing to the log file. *)
Definition logger_add (path : string) : M unit := λ s,
  (inr (), {| trace := trace s; file_sinks := S (file_sinks s);
              logfile := logfile s; stderr := stderr s; ticks := ticks s |}).

(** The state once [entry] has gone to the default sink and once to every
    sink added since. *)
Definition write_entry (entry : log_entry) (s : State) : State :=
  {| trace := trace s; file_sinks := file_sinks s;
     logfile := logfile s ++ replicate (file_sinks s) entry;
     stderr := stderr s ++ [entry]; ticks := ticks s |}.

(** [logger.info(msg)] *)
Definition logger_info (msg : pyval) : M unit := λ s,
  (inr (), write_entry {| level := "INFO"; message := msg |} s).

(** The state once a clock has been read. *)
Definition advance (s : State) : State :=
  {| trace := trace s; file_sinks := file_sinks s; logfile := logfile s;
     stderr := stderr s; ticks := S (ticks s) |}.

(** Reading a clock: the [n]-th reading of the process takes the [n]-th
    value of the clock and moves on. *)
Definition read_clock {A} (clock : nat → A) : M A := λ s,
  (inr (clock (ticks s)), advance s).

Record datetime : Type := {
  year : nat; month : nat; day : nat;
  hour : nat; minute : nat; second : nat
}.

(** Decimal, zero-padded on the left to [width] characters. *)
Definition zero_pad (width n : nat) : string :=
  let digits := pretty n in
  String.concat "" (replicate (width - String.length digits) "0") +:+ digits.

(** [dt.strftime("%Y:%m:%d %H:%M:%S")] *)
Definition strftime (dt : datetime) : string :=
  zero_pad 4 (year dt) +:+ ":" +:+ zero_pad 2 (month dt) +:+ ":" +:+
  zero_pad 2 (day dt) +:+ " " +:+ zero_pad 2 (hour dt) +:+ ":" +:+
  zero_pad 2 (minute dt) +:+ ":" +:+ zero_pad 2 (second dt).

(** ** The featurizer *)

Record TransformerFeaturizer : Type := {
  dim : nat;
  sentence_transformer_model : SentenceTransformer
}.

(** [fit] learns nothing and returns the featurizer itself. *)
Definition TransformerFeaturizer_fit
    (self : TransformerFeaturizer) (X : list string) : TransformerFeaturizer :=
  self.

(** One call of [sentence_transformer_model.encode(doc)]. *)
Definition call_encode (st : SentenceTransformer) (doc : string) : M vector :=
  emit (EvEncode doc);; lift (encode st doc).

(** The loop of [transform]: [X_t] is the list built so far. *)
Fixpoint transform_loop (self : TransformerFeaturizer)
    (X : list string) (X_t : list vector) : M (list vector) :=
  match X with
  | [] => mret X_t
  | doc :: X' =>
      v ← call_encode (sentence_transformer_model self) doc;
      transform_loop self X' (X_t ++ [v])
  end.

Definition TransformerFeaturizer_transform
    (self : TransformerFeaturizer) (X : list string) : M (list vector) :=
  transform_loop self X [].

(** ** The pipeline *)

(** [Pipeline([("transformer_featurizer", featurizer), ("classifier", model)])]:
    a prediction method of the pipeline transforms its input with the first
    step and calls the method of the same name on the last one. *)
Record Pipeline : Type := {
  transformer_featurizer : TransformerFeaturizer;
  classifier : Estimator
}.

Definition Pipeline_predict_proba (p : Pipeline) (X : list string)
    : M (list (list Qc)) :=
  Xt ← TransformerFeaturizer_transform (transformer_featurizer p) X;
  emit (EvPredictProba Xt);;
  lift (clf_predict_proba (classifier p) Xt).

Definition Pipeline_predict (p : Pipeline) (X : list string) : M (list string) :=
  Xt ← TransformerFeaturizer_transform (transformer_featurizer p) X;
  emit (EvPredict Xt);;
  lift (clf_predict (classifier p) Xt).

Definition Pipeline_classes_ (p : Pipeline) : list string :=
  clf_classes_ (classifier p).

(** ** NewsCategoryClassifier *)

Record NewsCategoryClassifier : Type := {
  config : Config;
  pipeline : Pipeline
}.

(** What [__init__] reads from outside the process: the embedding model by
    name, the classifier from its file.  Either load may fail. *)
Record Loaders : Type := {
  load_SentenceTransformer : string → exn + SentenceTransformer;
  joblib_load : string → exn + Estimator
}.

Definition NewsCategoryClassifier_init (env : Loaders) (config : Config)
    : exn + NewsCategoryClassifier :=
  match load_SentenceTransformer env
          (sentence_transformer_model_name (cfg_featurizer config)) with
  | inl e => inl e
  | inr sentence_transformer_model =>
      match joblib_load env (serialized_model_path config) with
      | inl e => inl e
      | inr model =>
          let featurizer :=
            {| dim := sentence_transformer_embedding_dim (cfg_featurizer config);
               sentence_transformer_model := sentence_transformer_model |} in
          inr {| config := config;
                 pipeline := {| transformer_featurizer := featurizer;
                                classifier := model |} |}
      end
  end.

(** [d[k]] *)
Definition getitem {A} (d : dict A) (k : string) : M A :=
  match Dict.get k d with
  | Some v => mret v
  | None => raise (KeyError k)
  end.

(** [a[0]] on a sequence, [a[0, :]] on a two-dimensional array. *)
Definition first {A} (a : list A) : M A :=
  match a with
  | x :: _ => mret x
  | [] => raise IndexError
  end.

Definition predict_proba (self : NewsCategoryClassifier)
    (model_input : dict string) : M (dict Qc) :=
  doc ← getitem model_input "description";
  rows ← Pipeline_predict_proba (pipeline self) [doc];
  probs ← first rows;
  mret (Dict.of_pairs (py_zip (Pipeline_classes_ (pipeline self)) probs)).

Definition predict_label (self : NewsCategoryClassifier)
    (model_input : dict string) : M string :=
  doc ← getitem model_input "description";
  preds ← Pipeline_predict (pipeline self) [doc];
  pred ← first preds;
  mret pred.

(** ** The handlers *)

Section handlers.
(** The classifier built when the module is imported. *)
Variable clf : NewsCategoryClassifier.
(** [time.monotonic()] and [datetime.datetime.now()], reading by reading. *)
Variable monotonic : nat → Qc.
Variable now : nat → datetime.
(** Rounding of an exact result to the nearest [float]. *)
Variable fl : Qc → Qc.

Definition startup_event : M unit :=
  logger_add (log_destination GLOBAL_CONFIG);;
  logger_info (PStr "Setup completed").

Definition shutdown_event : M unit :=
  logger_info (PStr "Shutting down application").

Definition predict (request : PredictRequest) : M (dict pyval) :=
  start_time ← read_clock monotonic;
  let request_dict := PredictRequest_dict request in
  scores ← predict_proba clf request_dict;
  label ← predict_label clf request_dict;
  let response_dict :=
    [("scores", py_of_float_dict scores); ("label", PStr label)] in
  dt ← read_clock now;
  end_time ← read_clock monotonic;
  let log_data :=
    [("timestamp", PStr (strftime dt));
     ("request", py_of_str_dict request_dict);
     ("prediction", PDict response_dict);
     ("latency", PFloat (fl (Qc_of_Z 1000 * fl (end_time - start_time))%Qc))] in
  logger_info (PDict log_data);;
  mret response_dict.

Definition read_root : M (dict pyval) :=
  mret [("Hello", PStr "World")].
End handlers.

(** ** Request validation and the application *)

Definition required_fields : list string :=
  ["source"; "url"; "title"; "description"].

Inductive field_error : Type :=
  | NotAnObject
  | Missing (loc : string)
  | NotAString (loc : string).

Record http_response : Type := {
  status_code : nat;
  content : pyval
}.

(** The two routes the module declares. *)
Inductive http_request : Type :=
  | PostPredict (body : option pyval)
  | GetRoot.

Definition client_error (r : http_response) : Prop :=
  (400 ≤ status_code r < 500)%nat.

Definition error_loc (e : field_error) : pyval :=
  match e with
  | NotAnObject => PList [PStr "body"]
  | Missing loc | NotAString loc => PList [PStr "body"; PStr loc]
  end.

(** The body of a validation failure names the offending locations. *)
Definition unprocessable (errs : list field_error) : http_response :=
  {| status_code := 422;
     content := PDict [("detail", PList (error_loc <$> errs))] |}.

Definition internal_server_error : http_response :=
  {| status_code := 500; content := PStr "Internal Server Error" |}.

(** Reading a dictionary as a [PredictResponse]: the scores must be a
    dictionary and the label a string. *)
Definition PredictResponse_validate (d : dict pyval) : option PredictResponse :=
  match Dict.get "scores" d, Dict.get "label" d with
  | Some (PDict sc), Some (PStr l) => Some {| scores := sc; label := l |}
  | _, _ => None
  end.

Definition PredictResponse_json (r : PredictResponse) : pyval :=
  PDict [("scores", PDict (scores r)); ("label", PStr (label r))].

(** Serialisation when every number is a Python [float] and every label a
    Python [str]: reading as a [PredictResponse] is all that can fail. *)
Definition serialize_plain (d : dict pyval) : option pyval :=
  PredictResponse_json <$> PredictResponse_validate d.

Section app.
Variable clf : NewsCategoryClassifier.
Variable monotonic : nat → Qc.
Variable now : nat → datetime.
Variable fl : Qc → Qc.
(** How the validation library reads a value declared [str]: a string is
    taken as it is; whether anything else is accepted (and converted) is
    left to the library. *)
Variable str_validator : pyval → option string.
(** What the framework does with the value the handler returned: it reads
    it as a [PredictResponse] and encodes the result as JSON.  This happens
    after the handler has returned, and fails for values that are not of
    the declared types or cannot be encoded, such as scores that are
    numbers of a type the encoder does not know. *)
Variable serialize_response : dict pyval → option pyval.

Definition validate_field (d : dict pyval) (name : string)
    : field_error + string :=
  match Dict.get name d with
  | None => inl (Missing name)
  | Some v =>
      match str_validator v with
      | Some s => inr s
      | None => inl (NotAString name)
      end
  end.

Definition field_errors (rs : list (field_error + string)) : list field_error :=
  omap (λ r, match r with inl e => Some e | inr _ => None end) rs.

(** Building a [PredictRequest] from a parsed JSON body. *)
Definition PredictRequest_validate (body : pyval)
    : list field_error + PredictRequest :=
  match body with
  | PDict d =>
      match validate_field d "source", validate_field d "url",
            validate_field d "title", validate_field d "description" with
      | inr so, inr u, inr t, inr de =>
          inr {| source := so; url := u; title := t; description := de |}
      | so, u, t, de => inl (field_errors [so; u; t; de])
      end
  | _ => inl [NotAnObject]
  end.

(** [POST /predict]: [body] is [None] when the body is not JSON at all. *)
Definition post_predict (body : option pyval) (s : State)
    : http_response * State :=
  match body with
  | None => (unprocessable [NotAnObject], s)
  | Some b =>
      match PredictRequest_validate b with
      | inl errs => (unprocessable errs, s)
      | inr request =>
          match predict clf monotonic now fl request s with
          | (inl _, s') => (internal_server_error, s')
          | (inr response_dict, s') =>
              match serialize_response response_dict with
              | Some json => ({| status_code := 200; content := json |}, s')
              | None => (internal_server_error, s')
              end
          end
      end
  end.

(** [GET /] *)
Definition get_root (s : State) : http_response * State :=
  match read_root s with
  | (inr d, s') => ({| status_code := 200; content := PDict d |}, s')
  | (inl _, s') => (internal_server_error, s')
  end.

Definition app (req : http_request) (s : State) : http_response * State :=
  match req with
  | PostPredict body => post_predict body s
  | GetRoot => get_root s
  end.

(** The states in which a request is served: the startup hook has run
    once, in a process that had no file sink yet, and any number of
    requests have been handled since. *)
Inductive served : State → Prop :=
  | served_startup s : file_sinks s = 0 → served (startup_event s).2
  | served_request req s : served s → served (app req s).2.
End app.

(** ** A small model artifact to run the handlers on *)

Module Toy.
Definition quarter : Qc := Q2Qc (1 # 4).
Definition three_quarters : Qc := Q2Qc (3 # 4).

(** Embeds a document as its length. *)
Definition embedder : SentenceTransformer :=
  {| encode := λ doc, inr [Qc_of_Z (Z.of_nat (String.length doc))] |}.

(** An embedder that rejects the empty document. *)
Definition strict_embedder : SentenceTransformer :=
  {| encode := λ doc,
       if decide (doc = "") then inl (LibraryError "empty input")
       else inr [Qc_of_Z (Z.of_nat (String.length doc))] |}.

Definition categories : list string := ["BUSINESS"; "SPORTS"].

(** Predicts the class with the larger probability. *)
Definition estimator : Estimator :=
  {| clf_predict_proba := λ X, inr ((λ _, [quarter; three_quarters]) <$> X);
     clf_predict := λ X, inr ((λ _, "SPORTS") <$> X);
     clf_classes_ := categories |}.

(** A classifier whose [predict] comes from a decision function that its
    calibrated probabilities do not follow. *)
Definition miscalibrated : Estimator :=
  {| clf_predict_proba := λ X, inr ((λ _, [quarter; three_quarters]) <$> X);
     clf_predict := λ X, inr ((λ _, "BUSINESS") <$> X);
     clf_classes_ := categories |}.

Definition make (st : SentenceTransformer) (model : Estimator)
    : NewsCategoryClassifier :=
  {| config := GLOBAL_CONFIG;
     pipeline :=
       {| transformer_featurizer :=
            {| dim := sentence_transformer_embedding_dim
                        (cfg_featurizer GLOBAL_CONFIG);
               sentence_transformer_model := st |};
          classifier := model |} |}.

Definition clf : NewsCategoryClassifier := make embedder estimator.

Definition monotonic (n : nat) : Qc := Qc_of_Z (Z.of_nat n).

Definition now (n : nat) : datetime :=
  {| year := 2022; month := 9; day := 3;
     hour := 7; minute := 45; second := n `mod` 60 |}.

Definition fl (q : Qc) : Qc := q.

(** Accepts strings only. *)
Definition str_validator (v : pyval) : option string :=
  match v with PStr s => Some s | _ => None end.

(** The artifact returns Python floats and strings. *)
Definition serialize_response : dict pyval → option pyval := serialize_plain.

(** The artifact returns scores of a number type the JSON encoder refuses:
    no response of the handler can be encoded. *)
Definition unencodable : dict pyval → option pyval := λ _, None.

Definition request : PredictRequest :=
  {| source := "bbc"; url := "http://x"; title := "t";
     description := "stocks rally amid earnings season" |}.

(** The body of [request] as it arrives. *)
Definition body : pyval :=
  PDict [("source", PStr "bbc"); ("url", PStr "http://x");
         ("title", PStr "t");
         ("description", PStr "stocks rally amid earnings season")].

Definition fresh : State :=
  {| trace := []; file_sinks := 0; logfile := []; stderr := []; ticks := 0 |}.

(** The process once the startup hook has run. *)
Definition started : State := (startup_event fresh).2.
End Toy.

(** ** What the calls compute *)

(** What the loop of [transform] computes, and the documents it hands to
    [encode] on the way: all of them up to the first that raises. *)
Fixpoint encode_all (st : SentenceTransformer) (X : list string)
    : exn + list vector :=
  match X with
  | [] => inr []
  | doc :: X' =>
      match encode st doc with
      | inl e => inl e
      | inr v =>
          match encode_all st X' with
          | inl e => inl e
          | inr vs => inr (v :: vs)
          end
      end
  end.

Fixpoint attempted (st : SentenceTransformer) (X : list string) : list string :=
  match X with
  | [] => []
  | doc :: X' =>
      doc :: match encode st doc with
             | inl _ => []
             | inr _ => attempted st X'
             end
  end.

(** The two classifier methods as functions of the description. *)
Definition embedder_of (self : NewsCategoryClassifier) : SentenceTransformer :=
  sentence_transformer_model (transformer_featurizer (pipeline self)).

Definition infer_scores (self : NewsCategoryClassifier) (doc : string)
    : exn + dict Qc :=
  match encode (embedder_of self) doc with
  | inl e => inl e
  | inr v =>
      match clf_predict_proba (classifier (pipeline self)) [v] with
      | inl e => inl e
      | inr [] => inl IndexError
      | inr (probs :: _) =>
          inr (Dict.of_pairs (py_zip (Pipeline_classes_ (pipeline self)) probs))
      end
  end.

Definition infer_label (self : NewsCategoryClassifier) (doc : string)
    : exn + string :=
  match encode (embedder_of self) doc with
  | inl e => inl e
  | inr v =>
      match clf_predict (classifier (pipeline self)) [v] with
      | inl e => inl e
      | inr [] => inl IndexError
      | inr (pred :: _) => inr pred
      end
  end.

(** The calls each method makes on the model artifact. *)
Definition scores_events (self : NewsCategoryClassifier) (doc : string)
    : list event :=
  EvEncode doc ::
  match encode (embedder_of self) doc with
  | inl _ => []
  | inr v => [EvPredictProba [v]]
  end.

Definition label_events (self : NewsCategoryClassifier) (doc : string)
    : list event :=
  EvEncode doc ::
  match encode (embedder_of self) doc with
  | inl _ => []
  | inr v => [EvPredict [v]]
  end.

(** The response, the latency and the log entry of a request served when
    the clocks have been read [n] times. *)
Section run.
Variable monotonic : nat → Qc.
Variable now : nat → datetime.
Variable fl : Qc → Qc.

Definition response_of (sc : dict Qc) (l : string) : dict pyval :=
  [("scores", py_of_float_dict sc); ("label", PStr l)].

(** The latency a request that starts at reading [n] of the clocks logs. *)
Definition latency_at (n : nat) : Qc :=
  fl (Qc_of_Z 1000 * fl (monotonic (S (S n)) - monotonic n))%Qc.

Definition log_entry_at (n : nat) (r : PredictRequest) (resp : dict pyval)
    : log_entry :=
  {| level := "INFO";
     message :=
       PDict [("timestamp", PStr (strftime (now (S n))));
              ("request", py_of_str_dict (PredictRequest_dict r));
              ("prediction", PDict resp);
              ("latency", PFloat (latency_at n))] |}.

End run.

(** ** What is expected of the classifier *)

(** The interface of a scikit-learn probabilistic classifier: distinct class
    labels; one row of probabilities per sample, with one entry per class,
    adding up to one within [eps]; one predicted label per sample, taken
    from the class labels. *)
Record classifier_contract (eps : Qc) (E : Estimator) : Prop := {
  classes_NoDup : NoDup (clf_classes_ E);
  proba_rows : ∀ X rows,
    clf_predict_proba E X = inr rows →
    length rows = length X ∧
    Forall (λ probs, length probs = length (clf_classes_ E) ∧
                     (Qcabs (Qc_sum probs - 1) ≤ eps)%Qc) rows;
  predict_labels : ∀ X preds,
    clf_predict E X = inr preds →
    length preds = length X ∧ Forall (λ y, y ∈ clf_classes_ E) preds
}.

(** ** The statements of the claims *)

(** [l] is a key of [sc] and no key of [sc] has a larger value. *)
Definition is_argmax (l : string) (sc : dict Qc) : Prop :=
  ∃ p, Dict.get l sc = Some p ∧ ∀ k q, Dict.get k sc = Some q → (q ≤ p)%Qc.

(** The statement that the label of every response is the argmax of the
    scores of that response. *)
Definition label_is_argmax_of_scores (clf : NewsCategoryClassifier)
    (monotonic : nat → Qc) (now : nat → datetime) (fl : Qc → Qc) : Prop :=
  ∀ r s resp,
    (predict clf monotonic now fl r s).1 = inr resp →
    ∃ sc l,
      resp = [("scores", py_of_float_dict sc); ("label", PStr l)] ∧
      is_argmax l sc.

(** The classifier's [predict] picks, for every sample, a class of maximal
    probability in the row [predict_proba] gives for that sample. *)
Definition predict_follows_proba (E : Estimator) : Prop :=
  ∀ X rows preds,
    clf_predict_proba E X = inr rows →
    clf_predict E X = inr preds →
    Forall2 (λ probs y, is_argmax y (zip (clf_classes_ E) probs)) rows preds.

(** The clock of [time.monotonic()] never goes back. *)
Definition clock_monotone (monotonic : nat → Qc) : Prop :=
  ∀ i j : nat, (i ≤ j)%nat → (monotonic i ≤ monotonic j)%Qc.

(** Rounding to a float keeps the order and is exact at zero. *)
Definition rounding (fl : Qc → Qc) : Prop :=
  (∀ x y, (x ≤ y)%Qc → (fl x ≤ fl y)%Qc) ∧ fl 0%Qc = 0%Qc.

(** [entry] records request [r] and response [resp]: a timestamp string,
    the request, the response and a non-negative latency, the latter under
    the key [latency_key]. *)
Definition records (latency_key : string) (r : PredictRequest)
    (resp : dict pyval) (entry : log_entry) : Prop :=
  ∃ ts lat,
    message entry =
      PDict [("timestamp", PStr ts);
             ("request", py_of_str_dict (PredictRequest_dict r));
             ("prediction", PDict resp);
             (latency_key, PFloat lat)] ∧
    (0 ≤ lat)%Qc.

(** Every prediction served appends one entry to the log file, and that
    entry records the request and the response. *)
Definition one_record_per_prediction (latency_key : string)
    (clf : NewsCategoryClassifier) (monotonic : nat → Qc)
    (now : nat → datetime) (fl : Qc → Qc)
    (str_validator : pyval → option string)
    (serialize_response : dict pyval → option pyval) : Prop :=
  ∀ r s resp s',
    served clf monotonic now fl str_validator serialize_response s →
    predict clf monotonic now fl r s = (inr resp, s') →
    ∃ entry, logfile s' = logfile s ++ [entry] ∧
             records latency_key r resp entry.

(** The statement that a call of [POST /predict] is all or nothing: either
    it is answered with status 200 and exactly one record has been appended
    to the log file, or it is answered with no prediction and the log file
    is as it was. *)
Definition all_or_nothing (clf : NewsCategoryClassifier)
    (monotonic : nat → Qc) (now : nat → datetime) (fl : Qc → Qc)
    (str_validator : pyval → option string)
    (serialize_response : dict pyval → option pyval) : Prop :=
  ∀ body s,
    served clf monotonic now fl str_validator serialize_response s →
    let answered :=
      post_predict clf monotonic now fl str_validator serialize_response
        body s in
    (status_code answered.1 = 200 ∧
     ∃ entry, logfile answered.2 = logfile s ++ [entry]) ∨
    (status_code answered.1 ≠ 200 ∧ logfile answered.2 = logfile s).

(** The statement that every request whose body validates has its
    description embedded twice: the calls it makes on the model are
    [encode], [predict_proba], [encode], [predict]. *)
Definition pipeline_runs_twice (clf : NewsCategoryClassifier)
    (monotonic : nat → Qc) (now : nat → datetime) (fl : Qc → Qc)
    (str_validator : pyval → option string)
    (serialize_response : dict pyval → option pyval) : Prop :=
  ∀ body r s,
    PredictRequest_validate str_validator body = inr r →
    ∃ v,
      trace (post_predict clf monotonic now fl str_validator
               serialize_response (Some body) s).2
      = trace s ++ [EvEncode (description r); EvPredictProba [v];
                    EvEncode (description r); EvPredict [v]].

(** The value a body has for a field, if it is an object that has it. *)
Definition body_field (b : pyval) (f : string) : option pyval :=
  match b with
  | PDict d => Dict.get f d
  | _ => None
  end.

(** The bodies that are not requests: no JSON at all, not an object, an
    object that lacks a required field, or one in which a required field
    has a value that is not read as a string. *)
Inductive malformed (str_validator : pyval → option string)
    : option pyval → Prop :=
  | malformed_no_json : malformed str_validator None
  | malformed_no_object b :
      (∀ d, b ≠ PDict d) → malformed str_validator (Some b)
  | malformed_missing b f :
      f ∈ required_fields → body_field b f = None →
      malformed str_validator (Some b)
  | malformed_no_string b f v :
      f ∈ required_fields → body_field b f = Some v →
      str_validator v = None → malformed str_validator (Some b).

(** ** Sessions *)

Section sessions.
Variable clf : NewsCategoryClassifier.
Variable monotonic : nat → Qc.
Variable now : nat → datetime.
Variable fl : Qc → Qc.
Variable str_validator : pyval → option string.
Variable serialize_response : dict pyval → option pyval.

(** The application answering requests one after the other. *)
Fixpoint session (reqs : list http_request) (s : State)
    : list http_response * State :=
  match reqs with
  | [] => ([], s)
  | req :: reqs' =>
      let '(resp, s1) :=
        app clf monotonic now fl str_validator serialize_response req s in
      let '(resps, s2) := session reqs' s1 in
      (resp :: resps, s2)
  end.

(** A process from start to stop: the startup hook, the requests, the
    shutdown hook. *)
Definition lifecycle (reqs : list http_request) (s : State)
    : list http_response * State :=
  let s1 := (startup_event s).2 in
  let '(resps, s2) := session reqs s1 in
  (resps, (shutdown_event s2).2).
End sessions.

(** [req] asked for a prediction and got one. *)
Definition predicted (req : http_request) (resp : http_response) : bool :=
  match req with
  | PostPredict _ => bool_decide (status_code resp = 200)
  | GetRoot => false
  end.

Fixpoint count_predictions (reqs : list http_request)
    (resps : list http_response) : nat :=
  match reqs, resps with
  | req :: reqs', resp :: resps' =>
      (if predicted req resp then 1 else 0) + count_predictions reqs' resps'
  | _, _ => 0
  end.

(** [req] asked for a prediction and got a server error. *)
Definition failed (req : http_request) (resp : http_response) : bool :=
  match req with
  | PostPredict _ => bool_decide (status_code resp = 500)
  | GetRoot => false
  end.

Fixpoint count_failures (reqs : list http_request)
    (resps : list http_response) : nat :=
  match reqs, resps with
  | req :: reqs', resp :: resps' =>
      (if failed req resp then 1 else 0) + count_failures reqs' resps'
  | _, _ => 0
  end.

(** Every response the handler can return can be sent. *)
Definition always_serialisable
    (serialize_response : dict pyval → option pyval) : Prop :=
  ∀ sc l, is_Some (serialize_response (response_of sc l)).

(** The JSON body that carries request [r]. *)
Definition request_body (r : PredictRequest) : pyval :=
  py_of_str_dict (PredictRequest_dict r).

(** The dates and times [datetime.now()] returns; years have four digits. *)
Definition valid_datetime (dt : datetime) : Prop :=
  (1000 ≤ Z.of_nat (year dt) ≤ 9999)%Z ∧
  (1 ≤ month dt ≤ 12 ∧ 1 ≤ day dt ≤ 31 ∧
   hour dt ≤ 23 ∧ minute dt ≤ 59 ∧ second dt ≤ 59)%nat.

(** A classifier that returns one probability for two classes. *)
Definition short_rows : Estimator :=
  {| clf_predict_proba := λ X, inr ((λ _, [Toy.quarter]) <$> X);
     clf_predict := λ X, inr ((λ _, "SPORTS") <$> X);
     clf_classes_ := Toy.categories |}.

(** What is found outside the process when the sample artifacts are in
    place. *)
Definition sample_loaders : Loaders :=
  {| load_SentenceTransformer := λ name,
       if decide (name = "all-mpnet-base-v2") then inr Toy.embedder
       else inl (LibraryError "no such model");
     joblib_load := λ path,
       if decide (path = "../data/news_classifier.joblib")
       then inr Toy.estimator
       else inl (LibraryError "no such file") |}.

(** * Properties *)

(** ** Timestamps *)

Example strftime_example :
  strftime {| year := 2022; month := 9; day := 3;
              hour := 7; minute := 45; second := 0 |} = "2022:09:03 07:45:00".
Proof. reflexivity. Qed.

(** ** Dictionaries *)

Section dict_facts.
Context {A : Type}.
Implicit Types (d : dict A) (k : string) (v : A).

Lemma setitem_fresh k v d :
  k ∉ Dict.keys d → Dict.setitem k v d = d ++ [(k, v)].
Proof.
  induction d as [|[k' v'] d IH]; simpl; intros Hk; [done|].
  rewrite not_elem_of_cons in Hk. destruct Hk as [Hne Hk].
  case_decide; [congruence|]. by rewrite IH.
Qed.

Lemma update_fresh d (pairs : list (string * A)) :
  NoDup (Dict.keys d ++ pairs.*1) → Dict.update d pairs = d ++ pairs.
Proof.
  unfold Dict.update. revert d.
  induction pairs as [|[k v] pairs IH]; simpl; intros d Hnd.
  - by rewrite app_nil_r.
  - assert (k ∉ Dict.keys d) as Hk.
    { apply NoDup_app in Hnd as (_ & Hdis & _).
      intros Hin. apply (Hdis _ Hin). left. }
    rewrite (setitem_fresh _ _ _ Hk), IH, <- app_assoc; [done|].
    unfold Dict.keys in *. rewrite fmap_app, <- app_assoc. exact Hnd.
Qed.

(** Distinct keys: the dictionary is the list of pairs it was built from. *)
Lemma of_pairs_NoDup (pairs : list (string * A)) :
  NoDup pairs.*1 → Dict.of_pairs pairs = pairs.
Proof. intros Hnd. unfold Dict.of_pairs. by rewrite update_fresh. Qed.
End dict_facts.

(** ** The effects of the pipeline *)

Lemma add_events_nil s : add_events [] s = s.
Proof. destruct s. unfold add_events. simpl. by rewrite app_nil_r. Qed.

Lemma add_events_app evs1 evs2 s :
  add_events evs2 (add_events evs1 s) = add_events (evs1 ++ evs2) s.
Proof. unfold add_events. simpl. by rewrite app_assoc. Qed.

Ltac unfold_M :=
  cbv [mbind M_bind mret M_ret raise lift emit call_encode getitem first] in *.

Lemma transform_loop_run self X X_t s :
  transform_loop self X X_t s =
    (match encode_all (sentence_transformer_model self) X with
     | inl e => inl e
     | inr vs => inr (X_t ++ vs)
     end,
     add_events (EvEncode <$> attempted (sentence_transformer_model self) X) s).
Proof.
  revert X_t s. induction X as [|doc X IH]; intros X_t s; simpl.
  - unfold_M. by rewrite app_nil_r, add_events_nil.
  - unfold_M. destruct (encode _ doc) as [e|v]; [done|].
    rewrite IH, add_events_app. simpl.
    destruct (encode_all _ X) as [e|vs]; [done|]. by rewrite <- app_assoc.
Qed.

Lemma transform_run self X s :
  TransformerFeaturizer_transform self X s =
    (encode_all (sentence_transformer_model self) X,
     add_events (EvEncode <$> attempted (sentence_transformer_model self) X) s).
Proof.
  unfold TransformerFeaturizer_transform. rewrite transform_loop_run.
  by destruct (encode_all _ X).
Qed.

Lemma Pipeline_predict_proba_run p X s :
  let st := sentence_transformer_model (transformer_featurizer p) in
  Pipeline_predict_proba p X s =
    match encode_all st X with
    | inl e => (inl e, add_events (EvEncode <$> attempted st X) s)
    | inr Xt =>
        (clf_predict_proba (classifier p) Xt,
         add_events ((EvEncode <$> attempted st X) ++ [EvPredictProba Xt]) s)
    end.
Proof.
  intros st. unfold Pipeline_predict_proba. unfold_M.
  rewrite transform_run. fold st.
  destruct (encode_all st X); [done|]. by rewrite add_events_app.
Qed.

Lemma Pipeline_predict_run p X s :
  let st := sentence_transformer_model (transformer_featurizer p) in
  Pipeline_predict p X s =
    match encode_all st X with
    | inl e => (inl e, add_events (EvEncode <$> attempted st X) s)
    | inr Xt =>
        (clf_predict (classifier p) Xt,
         add_events ((EvEncode <$> attempted st X) ++ [EvPredict Xt]) s)
    end.
Proof.
  intros st. unfold Pipeline_predict. unfold_M.
  rewrite transform_run. fold st.
  destruct (encode_all st X); [done|]. by rewrite add_events_app.
Qed.

(** ** The two classifier methods *)

Lemma predict_proba_run self model_input doc s :
  Dict.get "description" model_input = Some doc →
  predict_proba self model_input s =
    (infer_scores self doc, add_events (scores_events self doc) s).
Proof.
  intros Hdoc. unfold predict_proba, infer_scores, scores_events, embedder_of.
  cbv [mbind M_bind getitem]. rewrite Hdoc. cbv [mret M_ret].
  rewrite Pipeline_predict_proba_run. simpl.
  destruct (encode _ doc) as [e|v]; [done|]. simpl.
  destruct (clf_predict_proba _ _) as [e|[|probs rows]]; done.
Qed.

Lemma predict_label_run self model_input doc s :
  Dict.get "description" model_input = Some doc →
  predict_label self model_input s =
    (infer_label self doc, add_events (label_events self doc) s).
Proof.
  intros Hdoc. unfold predict_label, infer_label, label_events, embedder_of.
  cbv [mbind M_bind getitem]. rewrite Hdoc. cbv [mret M_ret].
  rewrite Pipeline_predict_run. simpl.
  destruct (encode _ doc) as [e|v]; [done|]. simpl.
  destruct (clf_predict _ _) as [e|[|pred preds]]; done.
Qed.

(** Without a description there is nothing to embed. *)
Lemma predict_proba_KeyError self model_input s :
  Dict.get "description" model_input = None →
  predict_proba self model_input s = (inl (KeyError "description"), s).
Proof. intros Hdoc. unfold predict_proba. unfold_M. by rewrite Hdoc. Qed.

Lemma PredictRequest_dict_description r :
  Dict.get "description" (PredictRequest_dict r) = Some (description r).
Proof. reflexivity. Qed.

(** ** One run of the handler *)

Section handler_facts.
Variable clf : NewsCategoryClassifier.
Variable monotonic : nat → Qc.
Variable now : nat → datetime.
Variable fl : Qc → Qc.

Lemma predict_run r s :
  let doc := description r in
  predict clf monotonic now fl r s =
    match infer_scores clf doc with
    | inl e => (inl e, add_events (scores_events clf doc) (advance s))
    | inr sc =>
        let s1 := add_events (scores_events clf doc) (advance s) in
        match infer_label clf doc with
        | inl e => (inl e, add_events (label_events clf doc) s1)
        | inr l =>
            let resp := response_of sc l in
            (inr resp,
             write_entry (log_entry_at monotonic now fl (ticks s) r resp)
               (advance (advance (add_events (label_events clf doc) s1))))
        end
    end.
Proof.
  intros doc. unfold predict. cbv [mbind M_bind read_clock].
  rewrite (predict_proba_run _ _ doc) by apply PredictRequest_dict_description.
  destruct (infer_scores clf doc) as [e|sc]; [done|].
  rewrite (predict_label_run _ _ doc) by apply PredictRequest_dict_description.
  destruct (infer_label clf doc) as [e|l]; [done|].
  reflexivity.
Qed.

(** A run of the handler leaves the sinks as they were. *)
Lemma predict_file_sinks r s :
  file_sinks (predict clf monotonic now fl r s).2 = file_sinks s.
Proof.
  rewrite predict_run.
  destruct (infer_scores _ _); [done|]. by destruct (infer_label _ _).
Qed.
End handler_facts.

Lemma infer_scores_inr self doc sc :
  infer_scores self doc = inr sc →
  ∃ v probs rows,
    encode (embedder_of self) doc = inr v ∧
    clf_predict_proba (classifier (pipeline self)) [v] = inr (probs :: rows) ∧
    sc = Dict.of_pairs (py_zip (Pipeline_classes_ (pipeline self)) probs).
Proof.
  unfold infer_scores. destruct (encode _ doc) as [e|v]; [done|].
  destruct (clf_predict_proba _ _) as [e|[|probs rows]] eqn:Hrows; [done..|].
  intros [= <-]. by exists v, probs, rows.
Qed.

Lemma infer_label_inr self doc l :
  infer_label self doc = inr l →
  ∃ v preds,
    encode (embedder_of self) doc = inr v ∧
    clf_predict (classifier (pipeline self)) [v] = inr (l :: preds).
Proof.
  unfold infer_label. destruct (encode _ doc) as [e|v]; [done|].
  destruct (clf_predict _ _) as [e|[|pred preds]] eqn:Hpreds; [done..|].
  intros [= <-]. by exists v, preds.
Qed.

(** A successful run returns the two results under their two keys. *)
Lemma predict_inr clf monotonic now fl r s resp :
  (predict clf monotonic now fl r s).1 = inr resp →
  ∃ sc l,
    infer_scores clf (description r) = inr sc ∧
    infer_label clf (description r) = inr l ∧
    resp = response_of sc l.
Proof.
  rewrite predict_run.
  destruct (infer_scores _ _) as [e|sc]; [done|].
  destruct (infer_label _ _) as [e|l]; [done|].
  simpl. intros [= <-]. by exists sc, l.
Qed.

Lemma scores_under_contract eps self doc sc :
  classifier_contract eps (classifier (pipeline self)) →
  infer_scores self doc = inr sc →
  ∃ probs, sc = zip (clf_classes_ (classifier (pipeline self))) probs ∧
           length probs = length (clf_classes_ (classifier (pipeline self))) ∧
           (Qcabs (Qc_sum probs - 1) ≤ eps)%Qc.
Proof.
  intros HE (v & probs & rows & _ & Hrows & ->)%infer_scores_inr.
  destruct (proba_rows _ _ HE _ _ Hrows) as [_ Hall].
  apply Forall_cons in Hall as [[Hlen Hsum] _].
  exists probs. split_and!; [|done..].
  apply of_pairs_NoDup. unfold py_zip, Pipeline_classes_.
  rewrite fst_zip by lia. apply HE.
Qed.

(** The two sample classifiers keep the interface. *)
Lemma toy_rows_sum : (Qcabs (Qc_sum [Toy.quarter; Toy.three_quarters] - 1) ≤ 0)%Qc.
Proof. by vm_compute. Qed.

Lemma toy_contract : classifier_contract 0 Toy.estimator.
Proof.
  split.
  - apply (bool_decide_unpack _). by vm_compute.
  - simpl. intros X rows [= <-]. split; [by rewrite length_fmap|].
    apply Forall_fmap, Forall_true. intros ?. split; [done|]. apply toy_rows_sum.
  - simpl. intros X preds [= <-]. split; [by rewrite length_fmap|].
    apply Forall_fmap, Forall_true. intros ?. simpl.
    unfold Toy.categories. rewrite !elem_of_cons. auto.
Qed.

Lemma miscalibrated_contract : classifier_contract 0 Toy.miscalibrated.
Proof.
  split.
  - apply (bool_decide_unpack _). by vm_compute.
  - simpl. intros X rows [= <-]. split; [by rewrite length_fmap|].
    apply Forall_fmap, Forall_true. intros ?. split; [done|]. apply toy_rows_sum.
  - simpl. intros X preds [= <-]. split; [by rewrite length_fmap|].
    apply Forall_fmap, Forall_true. intros ?. simpl.
    unfold Toy.categories. rewrite !elem_of_cons. auto.
Qed.

(** ** Claims about the response *)

(** C1. For every request that [POST /predict] answers, the label of the
    response is one of the classifier's class labels, the keys of the
    scores are those class labels, each once and in order, and the scores
    add up to one within the tolerance of the classifier's rows. *)
Theorem predict_label_and_scores_in_classes
    eps clf monotonic now fl r s resp :
  classifier_contract eps (classifier (pipeline clf)) →
  (predict clf monotonic now fl r s).1 = inr resp →
  ∃ sc l,
    resp = [("scores", py_of_float_dict sc); ("label", PStr l)] ∧
    l ∈ clf_classes_ (classifier (pipeline clf)) ∧
    Dict.keys sc = clf_classes_ (classifier (pipeline clf)) ∧
    (Qcabs (Qc_sum (Dict.values sc) - 1) ≤ eps)%Qc.
Proof.
  intros HE (sc & l & Hsc & Hl & ->)%predict_inr.
  exists sc, l. split; [done|].
  destruct (scores_under_contract _ _ _ _ HE Hsc) as (probs & -> & Hlen & Hsum).
  apply infer_label_inr in Hl as (v & preds & _ & Hpreds).
  destruct (predict_labels _ _ HE _ _ Hpreds) as [_ Hall].
  apply Forall_cons in Hall as [Hin _].
  split_and!; [done| |].
  - unfold Dict.keys. rewrite fst_zip; [done|lia].
  - unfold Dict.values. rewrite snd_zip; [done|lia].
Qed.

Lemma predict_label_and_scores_in_classes_witness :
  ∃ resp,
    (predict Toy.clf Toy.monotonic Toy.now Toy.fl Toy.request Toy.started).1
      = inr resp ∧
    ∃ sc l,
      resp = [("scores", py_of_float_dict sc); ("label", PStr l)] ∧
      l ∈ Toy.categories ∧
      Dict.keys sc = Toy.categories ∧
      (Qcabs (Qc_sum (Dict.values sc) - 1) ≤ 0)%Qc.
Proof.
  eexists. split; [reflexivity|].
  apply (predict_label_and_scores_in_classes
           0%Qc Toy.clf Toy.monotonic Toy.now Toy.fl Toy.request Toy.started).
  - exact toy_contract.
  - reflexivity.
Defined.

Lemma float_items_inj (sc1 sc2 : dict Qc) :
  prod_map id PFloat <$> sc1 = prod_map id PFloat <$> sc2 → sc1 = sc2.
Proof.
  revert sc2.
  induction sc1 as [|[k1 q1] sc1 IH]; intros [|[k2 q2] sc2]; simpl;
    intros Heq; try done.
  injection Heq as -> -> Htl. f_equal. by apply IH.
Qed.

(** C2, as stated, fails: a classifier whose [predict] does not follow its
    own probabilities is answered with the label [predict] gave, here
    [BUSINESS] at probability 1/4 against [SPORTS] at 3/4. *)
Lemma label_is_argmax_of_scores_fails :
  ¬ label_is_argmax_of_scores (Toy.make Toy.embedder Toy.miscalibrated)
      Toy.monotonic Toy.now Toy.fl.
Proof.
  intros Hclaim.
  destruct (Hclaim Toy.request Toy.started _ eq_refl)
    as (sc & l & Heq & p & Hget & Hmax).
  injection Heq as Hsc Hl.
  apply (float_items_inj
           [("BUSINESS", Toy.quarter); ("SPORTS", Toy.three_quarters)]) in Hsc.
  subst sc l. injection Hget as <-.
  specialize (Hmax "SPORTS" Toy.three_quarters eq_refl).
  by vm_compute in Hmax.
Qed.

Lemma toy_follows_proba : predict_follows_proba Toy.estimator.
Proof.
  intros X rows preds. simpl. intros [= <-] [= <-].
  apply Forall2_fmap, Forall_Forall2_diag, Forall_true. intros _.
  exists Toy.three_quarters. split; [done|].
  intros k q. simpl. repeat case_decide; intros [= <-]; by vm_compute.
Qed.

(** C2, amended.  The label of a response is what the classifier's own
    [predict] returns for the embedded description; it is the argmax of
    the scores of the response whenever that [predict] follows the
    classifier's probabilities. *)
Theorem predict_label_is_classifier_prediction
    clf monotonic now fl r s resp :
  (predict clf monotonic now fl r s).1 = inr resp →
  ∃ sc l v preds,
    resp = [("scores", py_of_float_dict sc); ("label", PStr l)] ∧
    encode (embedder_of clf) (description r) = inr v ∧
    clf_predict (classifier (pipeline clf)) [v] = inr (l :: preds) ∧
    (∀ eps, classifier_contract eps (classifier (pipeline clf)) →
            predict_follows_proba (classifier (pipeline clf)) →
            is_argmax l sc).
Proof.
  intros (sc & l & Hsc & Hl & ->)%predict_inr.
  destruct (infer_label_inr _ _ _ Hl) as (v & preds & Hv & Hpreds).
  exists sc, l, v, preds. split_and!; [done..|].
  intros eps HE Hfollows.
  destruct (scores_under_contract _ _ _ _ HE Hsc) as (probs' & -> & _).
  apply infer_scores_inr in Hsc as (v' & probs & rows & Hv' & Hrows & Hzip).
  assert (v' = v) as -> by congruence.
  specialize (Hfollows _ _ _ Hrows Hpreds).
  apply Forall2_cons in Hfollows as [Hmax _].
  rewrite Hzip. unfold py_zip, Pipeline_classes_.
  rewrite of_pairs_NoDup; [done|].
  destruct (proba_rows _ _ HE _ _ Hrows) as [_ Hall].
  apply Forall_cons in Hall as [[Hlen _] _].
  rewrite fst_zip by lia. apply HE.
Qed.

Lemma predict_label_is_classifier_prediction_witness :
  ∃ resp,
    (predict Toy.clf Toy.monotonic Toy.now Toy.fl Toy.request Toy.started).1
      = inr resp ∧
    ∃ sc l,
      resp = [("scores", py_of_float_dict sc); ("label", PStr l)] ∧
      is_argmax l sc.
Proof.
  eexists. split; [reflexivity|].
  destruct (predict_label_is_classifier_prediction
              Toy.clf Toy.monotonic Toy.now Toy.fl Toy.request Toy.started
              _ eq_refl)
    as (sc & l & v & preds & Hresp & _ & _ & Hmax).
  exists sc, l. split; [exact Hresp|].
  exact (Hmax 0%Qc toy_contract toy_follows_proba).
Defined.

(** ** The application *)

Lemma PredictResponse_validate_response_of sc l :
  PredictResponse_validate (response_of sc l) =
    Some {| scores := prod_map id PFloat <$> sc; label := l |}.
Proof. reflexivity. Qed.

(** Python floats and strings: what the handler returns is what is sent. *)
Lemma serialize_plain_response_of sc l :
  serialize_plain (response_of sc l) = Some (PDict (response_of sc l)).
Proof. reflexivity. Qed.

Section app_facts.
Variable clf : NewsCategoryClassifier.
Variable monotonic : nat → Qc.
Variable now : nat → datetime.
Variable fl : Qc → Qc.
Variable str_validator : pyval → option string.
Variable serialize_response : dict pyval → option pyval.

#[local] Abbreviation handle := (predict clf monotonic now fl).
#[local] Abbreviation post :=
  (post_predict clf monotonic now fl str_validator serialize_response).
#[local] Abbreviation serve :=
  (app clf monotonic now fl str_validator serialize_response).
#[local] Abbreviation is_served :=
  (served clf monotonic now fl str_validator serialize_response).

(** [POST /predict] on a body that validates, in terms of the handler. *)
Lemma post_predict_valid body r s :
  PredictRequest_validate str_validator body = inr r →
  post (Some body) s =
    (match (handle r s).1 with
     | inl _ => internal_server_error
     | inr resp =>
         match serialize_response resp with
         | Some json => {| status_code := 200; content := json |}
         | None => internal_server_error
         end
     end, (handle r s).2).
Proof.
  intros Hr. unfold post_predict. rewrite Hr.
  destruct (handle r s) as [[e|resp] s']; simpl; [done|].
  by destruct (serialize_response resp).
Qed.

Lemma app_file_sinks req s : file_sinks (serve req s).2 = file_sinks s.
Proof.
  destruct req as [[body|]|]; unfold app; [|done..].
  destruct (PredictRequest_validate str_validator body) as [errs|r] eqn:Hr.
  - unfold post_predict. by rewrite Hr.
  - rewrite (post_predict_valid _ _ _ Hr). apply predict_file_sinks.
Qed.

(** While requests are served, exactly one sink writes to the log file. *)
Lemma served_file_sinks s : is_served s → file_sinks s = 1.
Proof.
  induction 1 as [s Hs|req s _ IH].
  - simpl. by rewrite Hs.
  - by rewrite app_file_sinks.
Qed.
End app_facts.

Lemma latency_nonneg monotonic fl n :
  clock_monotone monotonic → rounding fl →
  (0 ≤ latency_at monotonic fl n)%Qc.
Proof.
  intros Hclock [Hmono Hzero]. unfold latency_at.
  rewrite <- Hzero at 1. apply Hmono.
  apply Qcmult_nonneg_nonneg; [done|].
  rewrite <- Hzero at 1. apply Hmono.
  apply (proj1 (Qcle_minus_iff _ _)). apply Hclock. lia.
Qed.

Lemma toy_clock_monotone : clock_monotone Toy.monotonic.
Proof.
  intros i j Hij. unfold Toy.monotonic.
  apply (proj1 (Z2Qc_inj_le _ _)). lia.
Qed.

Lemma toy_rounding : rounding Toy.fl.
Proof. split; [by intros x y|done]. Qed.

Lemma toy_served :
  served Toy.clf Toy.monotonic Toy.now Toy.fl Toy.str_validator
    Toy.serialize_response Toy.started.
Proof. by apply served_startup. Qed.

(** ** Claims about the log *)

(** C3, as stated, fails: the record has no field [latency_ms]. *)
Lemma latency_ms_field_absent :
  ¬ one_record_per_prediction "latency_ms"
      Toy.clf Toy.monotonic Toy.now Toy.fl Toy.str_validator
      Toy.serialize_response.
Proof.
  intros Hclaim.
  destruct (Hclaim Toy.request Toy.started _ _ toy_served eq_refl)
    as (entry & Hlog & ts & lat & Hmsg & _).
  change (logfile Toy.started) with ([] ++ logfile Toy.started) in Hlog.
  simpl in Hlog. injection Hlog as <-. simpl in Hmsg. discriminate Hmsg.
Qed.

(** C3, amended.  Every successful [POST /predict] call appends exactly one
    record to the log file; its fields are [timestamp] (a string),
    [request], [prediction] and [latency] (a number, in milliseconds); the
    [request] and [prediction] fields are the request served and the
    response returned, and the latency is non-negative. *)
Theorem predict_appends_one_record
    clf monotonic now fl str_validator serialize_response :
  clock_monotone monotonic →
  rounding fl →
  one_record_per_prediction "latency" clf monotonic now fl str_validator serialize_response.
Proof.
  intros Hclock Hfl r s resp s' Hserved%served_file_sinks Hrun.
  rewrite predict_run in Hrun.
  destruct (infer_scores _ _) as [e|sc]; [done|].
  destruct (infer_label _ _) as [e|l]; [done|].
  injection Hrun as <- <-. simpl. rewrite Hserved. simpl.
  eexists. split; [reflexivity|].
  eexists _, _. split; [reflexivity|]. by apply latency_nonneg.
Qed.

Lemma predict_appends_one_record_witness :
  ∃ entry,
    logfile (predict Toy.clf Toy.monotonic Toy.now Toy.fl
               Toy.request Toy.started).2
      = logfile Toy.started ++ [entry] ∧
    records "latency" Toy.request
      [("scores", py_of_float_dict [("BUSINESS", Toy.quarter);
                                    ("SPORTS", Toy.three_quarters)]);
       ("label", PStr "SPORTS")] entry.
Proof.
  apply (predict_appends_one_record
           Toy.clf Toy.monotonic Toy.now Toy.fl Toy.str_validator Toy.serialize_response
           toy_clock_monotone toy_rounding Toy.request Toy.started).
  - exact toy_served.
  - reflexivity.
Defined.

(** The handler has no handler of exceptions: what [encode],
    [predict_proba] or [predict] raise is what it raises. *)
Lemma predict_propagates clf monotonic now fl r s :
  let handled := predict clf monotonic now fl r s in
  (∀ e, encode (embedder_of clf) (description r) = inl e →
        handled.1 = inl e) ∧
  (∀ v e, encode (embedder_of clf) (description r) = inr v →
          clf_predict_proba (classifier (pipeline clf)) [v] = inl e →
          handled.1 = inl e) ∧
  (∀ v probs rows e,
     encode (embedder_of clf) (description r) = inr v →
     clf_predict_proba (classifier (pipeline clf)) [v] = inr (probs :: rows) →
     clf_predict (classifier (pipeline clf)) [v] = inl e →
     handled.1 = inl e).
Proof.
  intros handled. subst handled.
  rewrite predict_run. unfold infer_scores, infer_label.
  split_and!.
  - by intros e ->.
  - by intros v e -> ->.
  - by intros v probs rows e -> -> ->.
Qed.

(** With one sink on the log file, a run of the handler either returns and
    has logged once, or raises and has logged nothing. *)
Lemma predict_outcome clf monotonic now fl r s :
  file_sinks s = 1 →
  let handled := predict clf monotonic now fl r s in
  (∃ resp entry,
     handled.1 = inr resp ∧
     logfile handled.2 = logfile s ++ [entry] ∧
     stderr handled.2 = stderr s ++ [entry]) ∨
  (∃ e,
     handled.1 = inl e ∧
     logfile handled.2 = logfile s ∧
     stderr handled.2 = stderr s).
Proof.
  intros Hsinks handled. subst handled. rewrite predict_run.
  destruct (infer_scores _ _) as [e|sc]; [right; by exists e|].
  destruct (infer_label _ _) as [e|l]; [right; by exists e|].
  left. eexists _, _. simpl. by rewrite Hsinks.
Qed.

(** C7, as stated, fails: what the handler returned is read as a
    [PredictResponse] and encoded after the record has been logged, and a
    response that cannot be encoded leaves the record in the log file and
    a server error as the answer. *)
Lemma all_or_nothing_fails :
  ¬ all_or_nothing Toy.clf Toy.monotonic Toy.now Toy.fl
      Toy.str_validator Toy.unencodable.
Proof.
  intros Hclaim.
  assert (served Toy.clf Toy.monotonic Toy.now Toy.fl Toy.str_validator
            Toy.unencodable Toy.started) as Hserved
    by (by apply served_startup).
  destruct (Hclaim (Some Toy.body) Toy.started Hserved)
    as [[Hstatus _]|[_ Hlog]].
  - discriminate Hstatus.
  - vm_compute in Hlog. discriminate Hlog.
Qed.

(** C7, amended.  While the service runs, a call of [POST /predict] has
    one of four outcomes.  It succeeds: status 200, the response of the
    handler sent, exactly one more record in the log file.  Or the handler
    raises: a server error, no response, the log file as it was.  Or the
    body does not validate: the handler is not run and the state of the
    process is what it was.  Or, the one partial outcome, the handler has
    returned and logged its record and the response cannot be serialised:
    a server error with the record in the log file.  The handler has no
    handler of exceptions: whenever [encode], [predict_proba] or [predict]
    raises, that exception is what the handler raises. *)
Theorem post_predict_all_or_nothing
    clf monotonic now fl str_validator serialize_response body s :
  served clf monotonic now fl str_validator serialize_response s →
  let answered :=
    post_predict clf monotonic now fl str_validator serialize_response
      body s in
  ((∃ b r resp entry json,
      body = Some b ∧ PredictRequest_validate str_validator b = inr r ∧
      predict clf monotonic now fl r s = (inr resp, answered.2) ∧
      serialize_response resp = Some json ∧
      answered.1 = {| status_code := 200; content := json |} ∧
      logfile answered.2 = logfile s ++ [entry] ∧
      stderr answered.2 = stderr s ++ [entry])
   ∨
   (∃ b r e,
      body = Some b ∧ PredictRequest_validate str_validator b = inr r ∧
      predict clf monotonic now fl r s = (inl e, answered.2) ∧
      answered.1 = internal_server_error ∧
      logfile answered.2 = logfile s ∧
      stderr answered.2 = stderr s)
   ∨
   (∃ errs, answered = (unprocessable errs, s))
   ∨
   (∃ b r resp entry,
      body = Some b ∧ PredictRequest_validate str_validator b = inr r ∧
      predict clf monotonic now fl r s = (inr resp, answered.2) ∧
      serialize_response resp = None ∧
      answered.1 = internal_server_error ∧
      logfile answered.2 = logfile s ++ [entry] ∧
      stderr answered.2 = stderr s ++ [entry]))
  ∧
  (∀ b r,
     body = Some b → PredictRequest_validate str_validator b = inr r →
     let handled := predict clf monotonic now fl r s in
     (∀ e, encode (embedder_of clf) (description r) = inl e →
           handled.1 = inl e) ∧
     (∀ v e, encode (embedder_of clf) (description r) = inr v →
             clf_predict_proba (classifier (pipeline clf)) [v] = inl e →
             handled.1 = inl e) ∧
     (∀ v probs rows e,
        encode (embedder_of clf) (description r) = inr v →
        clf_predict_proba (classifier (pipeline clf)) [v]
          = inr (probs :: rows) →
        clf_predict (classifier (pipeline clf)) [v] = inl e →
        handled.1 = inl e)).
Proof.
  intros Hserved%served_file_sinks answered. subst answered.
  split; [|intros b r _ _; apply predict_propagates].
  destruct body as [b|]; [|right; right; left; by eexists].
  destruct (PredictRequest_validate str_validator b) as [errs|r] eqn:Hr.
  { right; right; left. exists errs. unfold post_predict. by rewrite Hr. }
  rewrite (post_predict_valid _ _ _ _ _ _ _ _ _ Hr). simpl.
  destruct (predict_outcome clf monotonic now fl r s Hserved)
    as [(resp & entry & Hfst & Hlog & Herr)|(e & Hfst & Hlog & Herr)].
  - rewrite Hfst.
    assert (predict clf monotonic now fl r s =
              (inr resp, (predict clf monotonic now fl r s).2)) as Hrun
      by (rewrite <- Hfst; by destruct (predict _ _ _ _ _ _)).
    destruct (serialize_response resp) as [json|] eqn:Hjson.
    + left. by exists b, r, resp, entry, json.
    + right; right; right. by exists b, r, resp, entry.
  - right; left. exists b, r, e. rewrite Hfst.
    split_and!; try done.
    rewrite <- Hfst. by destruct (predict _ _ _ _ _ _).
Qed.

Lemma post_predict_all_or_nothing_witness :
  let answered :=
    post_predict Toy.clf Toy.monotonic Toy.now Toy.fl Toy.str_validator
      Toy.serialize_response (Some Toy.body) Toy.started in
  ∃ resp entry json,
    predict Toy.clf Toy.monotonic Toy.now Toy.fl Toy.request Toy.started
      = (inr resp, answered.2) ∧
    serialize_plain resp = Some json ∧
    answered.1 = {| status_code := 200; content := json |} ∧
    logfile answered.2 = logfile Toy.started ++ [entry].
Proof.
  intros answered. subst answered.
  destruct (proj1 (post_predict_all_or_nothing
                     Toy.clf Toy.monotonic Toy.now Toy.fl Toy.str_validator
                     Toy.serialize_response (Some Toy.body) Toy.started
                     toy_served))
    as [(b & r & resp & entry & json & Hb & Hr & Hrun & Hjson & Hans & Hlog & _)
       |[(b & r & e & _ & _ & _ & Hans & _)
        |[(errs & Hans)
         |(b & r & resp & entry & _ & _ & _ & _ & Hans & _)]]].
  - injection Hb as <-. injection Hr as <-. exists resp, entry, json.
    split; [exact Hrun|]. split; [exact Hjson|]. split; [exact Hans|exact Hlog].
  - discriminate Hans.
  - discriminate Hans.
  - discriminate Hans.
Defined.

(** A request the embedding model refuses: the exception of [encode] is
    what the handler raises, and nothing is logged. *)
Example predict_fails_entirely :
  let r := {| source := "bbc"; url := "http://x"; title := "t";
              description := "" |} in
  let out := predict (Toy.make Toy.strict_embedder Toy.estimator)
               Toy.monotonic Toy.now Toy.fl r Toy.started in
  out.1 = inl (LibraryError "empty input") ∧
  logfile out.2 = logfile Toy.started ∧
  trace out.2 = [EvEncode ""].
Proof. done. Qed.

(** ** Claims about the calls into the model *)

(** C9, as stated, fails: a request whose body validates and whose
    description the embedding model refuses is embedded once; the first
    run of the pipeline raises and the second is not started. *)
Lemma pipeline_runs_twice_fails :
  ¬ pipeline_runs_twice (Toy.make Toy.strict_embedder Toy.estimator)
      Toy.monotonic Toy.now Toy.fl Toy.str_validator Toy.serialize_response.
Proof.
  intros Hclaim.
  destruct (Hclaim
              (PDict [("source", PStr "bbc"); ("url", PStr "http://x");
                      ("title", PStr "t"); ("description", PStr "")])
              {| source := "bbc"; url := "http://x"; title := "t";
                 description := "" |}
              Toy.started eq_refl) as [v Htrace].
  vm_compute in Htrace. discriminate Htrace.
Qed.

(** C9, amended.  A call of the handler that returns has run the pipeline
    twice: the description is embedded and given to [predict_proba], then
    embedded again and given to [predict]; the scores come from the first
    run and the label is what the second run returned. *)
Theorem predict_runs_pipeline_twice clf monotonic now fl r s resp s' :
  predict clf monotonic now fl r s = (inr resp, s') →
  ∃ v probs rows l preds,
    encode (embedder_of clf) (description r) = inr v ∧
    trace s' = trace s ++ [EvEncode (description r); EvPredictProba [v];
                           EvEncode (description r); EvPredict [v]] ∧
    clf_predict_proba (classifier (pipeline clf)) [v] = inr (probs :: rows) ∧
    clf_predict (classifier (pipeline clf)) [v] = inr (l :: preds) ∧
    resp = [("scores",
             py_of_float_dict
               (Dict.of_pairs (py_zip (clf_classes_ (classifier (pipeline clf)))
                                      probs)));
            ("label", PStr l)].
Proof.
  rewrite predict_run.
  destruct (infer_scores _ _) as [e|sc] eqn:Hsc; [done|].
  destruct (infer_label _ _) as [e|l] eqn:Hl; [done|].
  intros [= <- <-].
  apply infer_scores_inr in Hsc as (v & probs & rows & Hv & Hrows & ->).
  apply infer_label_inr in Hl as (v' & preds & Hv' & Hpreds).
  assert (v' = v) as -> by congruence.
  exists v, probs, rows, l, preds. split_and!; [done| |done..].
  simpl. unfold scores_events, label_events. rewrite Hv.
  by rewrite <- app_assoc.
Qed.

Lemma predict_runs_pipeline_twice_witness :
  ∃ v,
    trace (predict Toy.clf Toy.monotonic Toy.now Toy.fl
             Toy.request Toy.started).2
    = [EvEncode (description Toy.request); EvPredictProba [v];
       EvEncode (description Toy.request); EvPredict [v]].
Proof.
  destruct (predict_runs_pipeline_twice
              Toy.clf Toy.monotonic Toy.now Toy.fl Toy.request Toy.started
              _ _ eq_refl)
    as (v & _ & _ & _ & _ & _ & Htrace & _).
  exists v. exact Htrace.
Defined.

(** ** Claims about the root endpoint *)

(** C8. [GET /] returns the object with the one key [Hello] and the value
    [World], whatever the state of the process, and leaves that state as
    it is. *)
Theorem read_root_hello_world clf monotonic now fl str_validator serialize_response s :
  read_root s = (inr [("Hello", PStr "World")], s) ∧
  app clf monotonic now fl str_validator serialize_response GetRoot s =
    ({| status_code := 200; content := PDict [("Hello", PStr "World")] |}, s).
Proof. done. Qed.

(** ** Claims about what the response depends on *)

(** C4. With the model fixed, two calls of the handler with the same
    description return the same scores and the same label (or raise the
    same exception), whatever the state of the process and whatever the
    clocks read at each call. *)
Theorem predict_deterministic
    clf monotonic1 now1 monotonic2 now2 fl r1 r2 s1 s2 :
  description r1 = description r2 →
  (predict clf monotonic1 now1 fl r1 s1).1 =
  (predict clf monotonic2 now2 fl r2 s2).1.
Proof.
  intros Hdesc. rewrite !predict_run. simpl. rewrite Hdesc.
  destruct (infer_scores _ _) as [e|sc]; [done|].
  by destruct (infer_label _ _).
Qed.

Lemma predict_deterministic_witness :
  let again :=
    (predict Toy.clf Toy.monotonic Toy.now Toy.fl Toy.request Toy.started).2 in
  (predict Toy.clf Toy.monotonic Toy.now Toy.fl Toy.request Toy.started).1 =
  (predict Toy.clf Toy.monotonic Toy.now Toy.fl Toy.request again).1.
Proof.
  intros again.
  exact (predict_deterministic
           Toy.clf Toy.monotonic Toy.now Toy.monotonic Toy.now Toy.fl
           Toy.request Toy.request Toy.started again eq_refl).
Defined.

(** C5. Two requests with the same description are treated alike by both
    classifier methods, result and calls made, and are answered with the
    same scores and the same label, whatever their source, url and
    title. *)
Theorem inference_reads_description_only clf monotonic now fl r1 r2 s :
  description r1 = description r2 →
  predict_proba clf (PredictRequest_dict r1) s =
    predict_proba clf (PredictRequest_dict r2) s ∧
  predict_label clf (PredictRequest_dict r1) s =
    predict_label clf (PredictRequest_dict r2) s ∧
  (predict clf monotonic now fl r1 s).1 = (predict clf monotonic now fl r2 s).1.
Proof.
  intros Hdesc. split_and!.
  - rewrite !(predict_proba_run _ _ _ _ (PredictRequest_dict_description _)).
    by rewrite Hdesc.
  - rewrite !(predict_label_run _ _ _ _ (PredictRequest_dict_description _)).
    by rewrite Hdesc.
  - rewrite !predict_run. simpl. rewrite Hdesc.
    destruct (infer_scores _ _) as [e|sc]; [done|].
    by destruct (infer_label _ _).
Qed.

Lemma inference_reads_description_only_witness :
  let other := {| source := "cnn"; url := "http://y"; title := "another";
                  description := description Toy.request |} in
  (predict Toy.clf Toy.monotonic Toy.now Toy.fl Toy.request Toy.started).1 =
  (predict Toy.clf Toy.monotonic Toy.now Toy.fl other Toy.started).1.
Proof.
  intros other.
  exact (proj2 (proj2 (inference_reads_description_only
                         Toy.clf Toy.monotonic Toy.now Toy.fl
                         Toy.request other Toy.started eq_refl))).
Defined.

(** ** Claims about validation *)

Section validation_facts.
Variable str_validator : pyval → option string.

Lemma validate_field_inr d f x :
  validate_field str_validator d f = inr x →
  ∃ v, Dict.get f d = Some v ∧ str_validator v = Some x.
Proof.
  unfold validate_field. destruct (Dict.get f d) as [v|]; [|done].
  destruct (str_validator v) as [y|] eqn:Hv; [|done].
  intros [= <-]. by exists v.
Qed.

Lemma validate_field_inl d f e :
  validate_field str_validator d f = inl e →
  Dict.get f d = None ∨
  ∃ v, Dict.get f d = Some v ∧ str_validator v = None.
Proof.
  unfold validate_field. destruct (Dict.get f d) as [v|]; [|by left].
  destruct (str_validator v) eqn:Hv; [done|]. intros _. right. by exists v.
Qed.

(** A body validates exactly when each required field does. *)
Lemma PredictRequest_validate_inr d r :
  PredictRequest_validate str_validator (PDict d) = inr r ↔
  validate_field str_validator d "source" = inr (source r) ∧
  validate_field str_validator d "url" = inr (url r) ∧
  validate_field str_validator d "title" = inr (title r) ∧
  validate_field str_validator d "description" = inr (description r).
Proof.
  unfold PredictRequest_validate. destruct r as [so u t de]. simpl.
  destruct (validate_field _ d "source"), (validate_field _ d "url"),
    (validate_field _ d "title"), (validate_field _ d "description");
    split; intros; destruct_and?; by simplify_eq.
Qed.

Lemma PredictRequest_validate_required d r f :
  PredictRequest_validate str_validator (PDict d) = inr r →
  f ∈ required_fields →
  ∃ x, validate_field str_validator d f = inr x.
Proof.
  intros (? & ? & ? & ?)%PredictRequest_validate_inr Hf.
  unfold required_fields in Hf. rewrite !elem_of_cons in Hf.
  destruct Hf as [->|[->|[->|[->|Hf]]]]; eauto.
  by apply elem_of_nil in Hf.
Qed.

Lemma malformed_not_valid b r :
  malformed str_validator (Some b) →
  PredictRequest_validate str_validator b ≠ inr r.
Proof.
  inversion 1 as [|b' Hobj|b' f Hf Hget|b' f v Hf Hget Hv]; subst;
    intros Hr.
  - destruct b; try done. by eapply Hobj.
  - destruct b; try done. simpl in Hget.
    destruct (PredictRequest_validate_required _ _ _ Hr Hf) as [x Hx].
    apply validate_field_inr in Hx as (v & Hv & _). congruence.
  - destruct b; try done. simpl in Hget.
    destruct (PredictRequest_validate_required _ _ _ Hr Hf) as [x Hx].
    apply validate_field_inr in Hx as (v' & Hv' & Hx). congruence.
Qed.
End validation_facts.

(** C6. A body that is malformed, for one because a required field is
    missing, is answered by validation with a client error; the handler
    and the pipeline are not run and nothing is logged: the state of the
    process is what it was. *)
Theorem malformed_body_rejected clf monotonic now fl str_validator serialize_response body s :
  malformed str_validator body →
  ∃ errs,
    post_predict clf monotonic now fl str_validator serialize_response body s =
      (unprocessable errs, s) ∧
    client_error (unprocessable errs).
Proof.
  intros Hbad. unfold post_predict.
  destruct body as [b|].
  - destruct (PredictRequest_validate str_validator b) as [errs|r] eqn:Hr.
    + exists errs. split; [done|]. unfold client_error. simpl. lia.
    + by destruct (malformed_not_valid _ _ r Hbad).
  - exists [NotAnObject]. split; [done|]. unfold client_error. simpl. lia.
Qed.

Lemma malformed_body_rejected_witness :
  let body := PDict [("source", PStr "bbc"); ("url", PStr "http://x");
                     ("title", PStr "t")] in
  ∃ errs,
    post_predict Toy.clf Toy.monotonic Toy.now Toy.fl Toy.str_validator Toy.serialize_response
      (Some body) Toy.started = (unprocessable errs, Toy.started) ∧
    client_error (unprocessable errs).
Proof.
  intros body.
  apply (malformed_body_rejected
           Toy.clf Toy.monotonic Toy.now Toy.fl Toy.str_validator Toy.serialize_response
           (Some body) Toy.started).
  apply (malformed_missing _ body "description").
  - unfold required_fields. rewrite !elem_of_cons. auto.
  - reflexivity.
Defined.

(** C10. Validation looks at no string: a body whose four fields are
    strings, the description empty or not, validates to the request with
    those strings, and the handler gives the description to the embedding
    model.  A body is rejected only if a required field is missing from it
    or has a value that is not a string. *)
Theorem any_description_reaches_pipeline
    clf monotonic now fl str_validator serialize_response :
  (∀ x, str_validator (PStr x) = Some x) →
  (∀ d so u t de s,
     Dict.get "source" d = Some (PStr so) →
     Dict.get "url" d = Some (PStr u) →
     Dict.get "title" d = Some (PStr t) →
     Dict.get "description" d = Some (PStr de) →
     PredictRequest_validate str_validator (PDict d) =
       inr {| source := so; url := u; title := t; description := de |} ∧
     ∃ evs,
       trace (post_predict clf monotonic now fl str_validator serialize_response
                (Some (PDict d)) s).2
       = trace s ++ EvEncode de :: evs) ∧
  (∀ b errs,
     PredictRequest_validate str_validator b = inl errs →
     ∃ f, f ∈ required_fields ∧
          (body_field b f = None ∨
           ∃ v, body_field b f = Some v ∧ ∀ x, v ≠ PStr x)).
Proof.
  intros Hstr. split.
  - intros d so u t de s Hso Hu Ht Hde.
    assert (PredictRequest_validate str_validator (PDict d) =
              inr {| source := so; url := u; title := t; description := de |})
      as Hr.
    { apply PredictRequest_validate_inr. unfold validate_field. simpl.
      by rewrite Hso, Hu, Ht, Hde, !Hstr. }
    split; [done|].
    rewrite (post_predict_valid _ _ _ _ _ _ _ _ _ Hr). simpl.
    rewrite predict_run. simpl. unfold scores_events.
    destruct (infer_scores _ _) as [e|sc]; [by eexists|].
    destruct (infer_label _ _) as [e|l]; simpl; rewrite <- ?app_assoc;
      by eexists.
  - intros b errs Hb.
    assert (∀ d f e, f ∈ required_fields →
              validate_field str_validator d f = inl e →
              ∃ f, f ∈ required_fields ∧
                   (Dict.get f d = None ∨
                    ∃ v, Dict.get f d = Some v ∧ ∀ x, v ≠ PStr x)) as Hfield.
    { intros d f e Hf [Hnone|(v & Hv & Hno)]%validate_field_inl;
        exists f; (split; [done|]); [by left|right].
      exists v. split; [done|]. intros x ->. by rewrite Hstr in Hno. }
    assert (∀ f, f ∈ ["source"; "url"; "title"; "description"] →
                 f ∈ required_fields) as Hreq by done.
    destruct b as [| | | | | |d];
      try (exists "source"; split; [apply Hreq; rewrite !elem_of_cons; auto|];
           by left).
    simpl. unfold PredictRequest_validate in Hb.
    destruct (validate_field _ d "source") as [e|?] eqn:H1.
    { eapply Hfield; [|exact H1]. apply Hreq. rewrite !elem_of_cons. auto. }
    destruct (validate_field _ d "url") as [e|?] eqn:H2.
    { eapply Hfield; [|exact H2]. apply Hreq. rewrite !elem_of_cons. auto. }
    destruct (validate_field _ d "title") as [e|?] eqn:H3.
    { eapply Hfield; [|exact H3]. apply Hreq. rewrite !elem_of_cons. auto. }
    destruct (validate_field _ d "description") as [e|?] eqn:H4; [|done].
    eapply Hfield; [|exact H4]. apply Hreq. rewrite !elem_of_cons. auto 6.
Qed.

Lemma any_description_reaches_pipeline_witness :
  let body := PDict [("source", PStr "bbc"); ("url", PStr "http://x");
                     ("title", PStr "t"); ("description", PStr "")] in
  PredictRequest_validate Toy.str_validator body =
    inr {| source := "bbc"; url := "http://x"; title := "t";
           description := "" |} ∧
  ∃ evs,
    trace (post_predict (Toy.make Toy.strict_embedder Toy.estimator)
             Toy.monotonic Toy.now Toy.fl Toy.str_validator Toy.serialize_response
             (Some body) Toy.started).2
    = trace Toy.started ++ EvEncode "" :: evs.
Proof.
  intros body.
  apply (proj1 (any_description_reaches_pipeline
                  (Toy.make Toy.strict_embedder Toy.estimator)
                  Toy.monotonic Toy.now Toy.fl Toy.str_validator Toy.serialize_response
                  (λ x, eq_refl))); reflexivity.
Defined.

(** * Further properties of the code *)

(** ** The featurizer on a batch *)

Lemma encode_all_Forall2 st X Xt :
  Forall2 (λ doc v, encode st doc = inr v) X Xt →
  encode_all st X = inr Xt ∧ attempted st X = X.
Proof.
  induction 1 as [|doc v X Xt Hv _ [IH1 IH2]]; simpl; [done|].
  by rewrite Hv, IH1, IH2.
Qed.

Lemma encode_all_first_failure st X1 doc X2 e :
  Forall (λ d, ∃ v, encode st d = inr v) X1 →
  encode st doc = inl e →
  encode_all st (X1 ++ doc :: X2) = inl e ∧
  attempted st (X1 ++ doc :: X2) = X1 ++ [doc].
Proof.
  intros Hok He. induction Hok as [|d X1 [v Hv] _ [IH1 IH2]]; simpl.
  - by rewrite He.
  - by rewrite Hv, IH1, IH2.
Qed.

(** X1. When every document of a batch can be embedded, [transform]
    returns the embeddings, one per document and in the order of the
    batch, after one call of [encode] per document in that order; nothing
    else of the process changes. *)
Theorem transform_embeds_each_document self X Xt s :
  Forall2 (λ doc v, encode (sentence_transformer_model self) doc = inr v) X Xt →
  TransformerFeaturizer_transform self X s =
    (inr Xt, add_events (EvEncode <$> X) s).
Proof.
  intros [Hall Hatt]%encode_all_Forall2.
  by rewrite transform_run, Hall, Hatt.
Qed.

Lemma transform_embeds_each_document_witness :
  TransformerFeaturizer_transform
    (transformer_featurizer (pipeline Toy.clf)) ["ab"; ""; "abc"] Toy.fresh
  = (inr [[Qc_of_Z 2]; [Qc_of_Z 0]; [Qc_of_Z 3]],
     add_events [EvEncode "ab"; EvEncode ""; EvEncode "abc"] Toy.fresh).
Proof.
  apply (transform_embeds_each_document
           (transformer_featurizer (pipeline Toy.clf))
           ["ab"; ""; "abc"] [[Qc_of_Z 2]; [Qc_of_Z 0]; [Qc_of_Z 3]]).
  repeat constructor.
Defined.

(** X2. [transform] stops at the first document [encode] refuses: it
    raises the exception of that call, has called [encode] on the documents
    up to and including that one, and on none of those after it. *)
Theorem transform_stops_at_first_failure self X1 doc X2 e s :
  Forall (λ d, ∃ v, encode (sentence_transformer_model self) d = inr v) X1 →
  encode (sentence_transformer_model self) doc = inl e →
  TransformerFeaturizer_transform self (X1 ++ doc :: X2) s =
    (inl e, add_events (EvEncode <$> (X1 ++ [doc])) s).
Proof.
  intros Hok He.
  destruct (encode_all_first_failure _ X1 doc X2 e Hok He) as [Hall Hatt].
  by rewrite transform_run, Hall, Hatt.
Qed.

Lemma transform_stops_at_first_failure_witness :
  TransformerFeaturizer_transform
    {| dim := 768; sentence_transformer_model := Toy.strict_embedder |}
    (["ab"] ++ "" :: ["abc"]) Toy.fresh
  = (inl (LibraryError "empty input"),
     add_events (EvEncode <$> (["ab"] ++ [""])) Toy.fresh).
Proof.
  apply (transform_stops_at_first_failure
           {| dim := 768; sentence_transformer_model := Toy.strict_embedder |}
           ["ab"] "" ["abc"]).
  - repeat constructor. by eexists.
  - reflexivity.
Defined.

(** ** The pipeline on a batch *)

(** X3. Both prediction methods of the pipeline embed the whole batch
    first and then call the classifier once, on the embeddings; the outcome
    of that call, result or exception, is the outcome of the method. *)
Theorem pipeline_embeds_then_classifies p X Xt s :
  Forall2 (λ doc v,
             encode (sentence_transformer_model (transformer_featurizer p)) doc
             = inr v) X Xt →
  Pipeline_predict_proba p X s =
    (clf_predict_proba (classifier p) Xt,
     add_events ((EvEncode <$> X) ++ [EvPredictProba Xt]) s) ∧
  Pipeline_predict p X s =
    (clf_predict (classifier p) Xt,
     add_events ((EvEncode <$> X) ++ [EvPredict Xt]) s).
Proof.
  intros [Hall Hatt]%encode_all_Forall2.
  rewrite Pipeline_predict_proba_run, Pipeline_predict_run. simpl.
  by rewrite Hall, Hatt.
Qed.

Lemma pipeline_embeds_then_classifies_witness :
  Pipeline_predict_proba (pipeline Toy.clf) ["ab"; "abc"] Toy.fresh =
    (inr [[Toy.quarter; Toy.three_quarters]; [Toy.quarter; Toy.three_quarters]],
     add_events [EvEncode "ab"; EvEncode "abc";
                 EvPredictProba [[Qc_of_Z 2]; [Qc_of_Z 3]]] Toy.fresh).
Proof.
  apply (proj1 (pipeline_embeds_then_classifies
                  (pipeline Toy.clf) ["ab"; "abc"]
                  [[Qc_of_Z 2]; [Qc_of_Z 3]] Toy.fresh
                  ltac:(repeat constructor))).
Defined.

(** X4. When a document of the batch cannot be embedded, neither method of
    the pipeline reaches the classifier: the exception of [encode] is
    raised and the calls made are calls of [encode] only. *)
Theorem pipeline_skips_classifier_on_failure p X1 doc X2 e s :
  let st := sentence_transformer_model (transformer_featurizer p) in
  Forall (λ d, ∃ v, encode st d = inr v) X1 →
  encode st doc = inl e →
  Pipeline_predict_proba p (X1 ++ doc :: X2) s =
    (inl e, add_events (EvEncode <$> (X1 ++ [doc])) s) ∧
  Pipeline_predict p (X1 ++ doc :: X2) s =
    (inl e, add_events (EvEncode <$> (X1 ++ [doc])) s).
Proof.
  intros st Hok He.
  destruct (encode_all_first_failure _ X1 doc X2 e Hok He) as [Hall Hatt].
  rewrite Pipeline_predict_proba_run, Pipeline_predict_run. simpl.
  fold st. by rewrite Hall, Hatt.
Qed.

Lemma pipeline_skips_classifier_on_failure_witness :
  Pipeline_predict (pipeline (Toy.make Toy.strict_embedder Toy.estimator))
    ([] ++ "" :: ["abc"]) Toy.fresh
  = (inl (LibraryError "empty input"),
     add_events (EvEncode <$> ([] ++ [""])) Toy.fresh).
Proof.
  apply (proj2 (pipeline_skips_classifier_on_failure
                  (pipeline (Toy.make Toy.strict_embedder Toy.estimator))
                  [] "" ["abc"] (LibraryError "empty input") Toy.fresh
                  ltac:(constructor) eq_refl)).
Defined.

(** ** The classifier methods on any input *)

(** X5. A model input without a [description] makes both classifier
    methods raise [KeyError] before anything is embedded: the state of the
    process is what it was. *)
Theorem methods_need_description self (model_input : dict string) s :
  Dict.get "description" model_input = None →
  predict_proba self model_input s = (inl (KeyError "description"), s) ∧
  predict_label self model_input s = (inl (KeyError "description"), s).
Proof.
  intros Hdoc. unfold predict_proba, predict_label. unfold_M.
  by rewrite Hdoc.
Qed.

Lemma methods_need_description_witness :
  predict_proba Toy.clf [("title", "t")] Toy.fresh =
    (inl (KeyError "description"), Toy.fresh) ∧
  predict_label Toy.clf [("title", "t")] Toy.fresh =
    (inl (KeyError "description"), Toy.fresh).
Proof.
  apply (methods_need_description Toy.clf [("title", "t")] Toy.fresh).
  reflexivity.
Defined.

Section dict_more_facts.
Context {A : Type}.
Implicit Types (d : dict A) (k : string) (v : A).

Lemma get_setitem k k' v d :
  Dict.get k' (Dict.setitem k v d) =
    if decide (k = k') then Some v else Dict.get k' d.
Proof.
  induction d as [|[k0 v0] d IH]; simpl.
  - done.
  - destruct (decide (k0 = k)) as [->|Hne]; simpl.
    + by repeat case_decide.
    + rewrite IH. repeat case_decide; congruence.
Qed.

Lemma elem_of_keys_setitem k k' v d :
  k' ∈ Dict.keys (Dict.setitem k v d) ↔ k' = k ∨ k' ∈ Dict.keys d.
Proof.
  unfold Dict.keys. induction d as [|[k0 v0] d IH]; simpl.
  - rewrite list_elem_of_singleton, elem_of_nil. tauto.
  - case_decide; simpl; rewrite !elem_of_cons.
    + subst. tauto.
    + rewrite IH. tauto.
Qed.

Lemma NoDup_keys_setitem k v d :
  NoDup (Dict.keys d) → NoDup (Dict.keys (Dict.setitem k v d)).
Proof.
  unfold Dict.keys. induction d as [|[k0 v0] d IH]; simpl; intros Hnd.
  - apply NoDup_singleton.
  - apply NoDup_cons in Hnd as [Hk0 Hnd].
    case_decide; simpl; apply NoDup_cons; split; auto.
    intros [->|Hin]%elem_of_keys_setitem; done.
Qed.

Lemma of_pairs_snoc (pairs : list (string * A)) k v :
  Dict.of_pairs (pairs ++ [(k, v)]) = Dict.setitem k v (Dict.of_pairs pairs).
Proof. unfold Dict.of_pairs, Dict.update. by rewrite foldl_snoc. Qed.

(** Looking a key up in [dict(pairs)] finds the last pair with that key. *)
Lemma get_of_pairs (pairs : list (string * A)) k :
  Dict.get k (Dict.of_pairs pairs) = Dict.get k (reverse pairs).
Proof.
  induction pairs as [|[k0 v0] pairs IH] using rev_ind; [done|].
  rewrite of_pairs_snoc, get_setitem, reverse_snoc. simpl.
  by rewrite IH.
Qed.

Lemma elem_of_keys_of_pairs (pairs : list (string * A)) k :
  k ∈ Dict.keys (Dict.of_pairs pairs) ↔ k ∈ pairs.*1.
Proof.
  induction pairs as [|[k0 v0] pairs IH] using rev_ind; [done|].
  rewrite of_pairs_snoc, elem_of_keys_setitem, IH, fmap_app, elem_of_app.
  simpl. rewrite list_elem_of_singleton. tauto.
Qed.

Lemma NoDup_keys_of_pairs (pairs : list (string * A)) :
  NoDup (Dict.keys (Dict.of_pairs pairs)).
Proof.
  induction pairs as [|[k0 v0] pairs IH] using rev_ind.
  - apply NoDup_nil_2.
  - rewrite of_pairs_snoc. by apply NoDup_keys_setitem.
Qed.
End dict_more_facts.

Lemma fst_zip_take {A B} (l : list A) (k : list B) :
  (zip l k).*1 = take (length k) l.
Proof.
  revert k. induction l as [|x l IH]; intros [|y k]; simpl; try done.
  by rewrite IH.
Qed.

(** X6. Whatever the classifier returns, the scores [predict_proba] builds
    hold no key twice and no key outside [classes_]: their keys are the
    first classes, as many as there are probabilities in the first row, so
    a row that is too short silently leaves classes out; and each key maps
    to the last probability paired with it. *)
Theorem predict_proba_scores_shape self model_input s sc s' :
  predict_proba self model_input s = (inr sc, s') →
  ∃ v probs rows,
    clf_predict_proba (classifier (pipeline self)) [v] = inr (probs :: rows) ∧
    NoDup (Dict.keys sc) ∧
    (∀ k, k ∈ Dict.keys sc ↔
          k ∈ take (length probs) (clf_classes_ (classifier (pipeline self)))) ∧
    (∀ k, Dict.get k sc =
          Dict.get k (reverse (zip (clf_classes_ (classifier (pipeline self)))
                                   probs))).
Proof.
  destruct (Dict.get "description" model_input) as [doc|] eqn:Hdoc.
  - rewrite (predict_proba_run _ _ _ _ Hdoc). intros [= Hsc _].
    apply infer_scores_inr in Hsc as (v & probs & rows & _ & Hrows & ->).
    exists v, probs, rows. unfold py_zip, Pipeline_classes_. split_and!.
    + done.
    + apply NoDup_keys_of_pairs.
    + intros k. by rewrite elem_of_keys_of_pairs, fst_zip_take.
    + intros k. apply get_of_pairs.
  - by rewrite (predict_proba_KeyError _ _ _ Hdoc).
Qed.

Lemma predict_proba_scores_shape_witness :
  ∃ sc,
    (predict_proba (Toy.make Toy.embedder short_rows)
       (PredictRequest_dict Toy.request) Toy.fresh).1 = inr sc ∧
    NoDup (Dict.keys sc) ∧
    ∀ k, k ∈ Dict.keys sc ↔ k ∈ take 1 Toy.categories.
Proof.
  eexists. split; [reflexivity|].
  destruct (predict_proba_scores_shape
              (Toy.make Toy.embedder short_rows)
              (PredictRequest_dict Toy.request) Toy.fresh _ _ eq_refl)
    as (v & probs & rows & Hrows & Hnd & Hkeys & _).
  injection Hrows as <- _. by split.
Defined.

(** ** The effects of the handler *)

(** X7. A successful run of the handler hands one record to the logger:
    it goes once to the default sink and once to every sink attached to
    the log file, so to none when the startup hook has not run; the
    handler attaches no sink, and reads the clocks three times. *)
Theorem predict_logs_to_every_sink clf monotonic now fl r s resp :
  (predict clf monotonic now fl r s).1 = inr resp →
  let s' := (predict clf monotonic now fl r s).2 in
  ∃ entry,
    entry = log_entry_at monotonic now fl (ticks s) r resp ∧
    logfile s' = logfile s ++ replicate (file_sinks s) entry ∧
    stderr s' = stderr s ++ [entry] ∧
    file_sinks s' = file_sinks s ∧
    ticks s' = 3 + ticks s.
Proof.
  rewrite predict_run.
  destruct (infer_scores _ _) as [e|sc]; [done|].
  destruct (infer_label _ _) as [e|l]; [done|].
  simpl. intros [= <-]. by eexists.
Qed.

Lemma predict_logs_to_every_sink_witness :
  let s' := (predict Toy.clf Toy.monotonic Toy.now Toy.fl
               Toy.request Toy.fresh).2 in
  logfile s' = [] ∧ length (stderr s') = 1.
Proof.
  intros s'.
  destruct (predict_logs_to_every_sink
              Toy.clf Toy.monotonic Toy.now Toy.fl Toy.request Toy.fresh
              _ eq_refl)
    as (entry & _ & Hlog & Herr & _).
  fold s' in Hlog, Herr. by rewrite Hlog, Herr.
Defined.

(** X8. A run of the handler that raises has logged nothing, to the file
    or to the default sink, and has read the clock once: neither the
    timestamp nor the end time is taken. *)
Theorem predict_failure_effects clf monotonic now fl r s e :
  (predict clf monotonic now fl r s).1 = inl e →
  let s' := (predict clf monotonic now fl r s).2 in
  logfile s' = logfile s ∧
  stderr s' = stderr s ∧
  file_sinks s' = file_sinks s ∧
  ticks s' = S (ticks s).
Proof.
  rewrite predict_run.
  destruct (infer_scores _ _) as [e1|sc]; [done|].
  by destruct (infer_label _ _) as [e2|l].
Qed.

Lemma predict_failure_effects_witness :
  let r := {| source := "bbc"; url := "http://x"; title := "t";
              description := "" |} in
  let s' := (predict (Toy.make Toy.strict_embedder Toy.estimator)
               Toy.monotonic Toy.now Toy.fl r Toy.started).2 in
  logfile s' = logfile Toy.started ∧
  stderr s' = stderr Toy.started ∧
  file_sinks s' = file_sinks Toy.started ∧
  ticks s' = S (ticks Toy.started).
Proof.
  intros r s'.
  exact (predict_failure_effects
           (Toy.make Toy.strict_embedder Toy.estimator)
           Toy.monotonic Toy.now Toy.fl r Toy.started
           (LibraryError "empty input") eq_refl).
Defined.

(** X9. When the description cannot be embedded the handler gives up at
    once: [encode] has been called one time, the classifier not at all,
    and the second run of the pipeline, for the label, is not started. *)
Theorem predict_gives_up_on_first_encode clf monotonic now fl r s e :
  encode (embedder_of clf) (description r) = inl e →
  predict clf monotonic now fl r s =
    (inl e, add_events [EvEncode (description r)] (advance s)).
Proof.
  intros He. rewrite predict_run. simpl.
  unfold infer_scores, scores_events. by rewrite He.
Qed.

Lemma predict_gives_up_on_first_encode_witness :
  let r := {| source := "bbc"; url := "http://x"; title := "t";
              description := "" |} in
  predict (Toy.make Toy.strict_embedder Toy.estimator)
    Toy.monotonic Toy.now Toy.fl r Toy.started
  = (inl (LibraryError "empty input"),
     add_events [EvEncode ""] (advance Toy.started)).
Proof.
  intros r.
  exact (predict_gives_up_on_first_encode
           (Toy.make Toy.strict_embedder Toy.estimator)
           Toy.monotonic Toy.now Toy.fl r Toy.started
           (LibraryError "empty input") eq_refl).
Defined.

(** ** Sessions and the life of the process *)

Section session_facts.
Variable clf : NewsCategoryClassifier.
Variable monotonic : nat → Qc.
Variable now : nat → datetime.
Variable fl : Qc → Qc.
Variable str_validator : pyval → option string.
Variable serialize_response : dict pyval → option pyval.

#[local] Abbreviation serve1 :=
  (app clf monotonic now fl str_validator serialize_response).
#[local] Abbreviation serve_all :=
  (session clf monotonic now fl str_validator serialize_response).

Ltac close_log_step :=
  split_and!; simpl; repeat case_bool_decide;
  try done; try lia; try (by repeat constructor).

(** One request, with one sink on the log file: one entry if a prediction
    was sent, at most one if a server error was, none otherwise. *)
Lemma app_log_step req s :
  file_sinks s = 1 →
  ∃ entries,
    logfile (serve1 req s).2 = logfile s ++ entries ∧
    ((if predicted req (serve1 req s).1 then 1 else 0) ≤ length entries)%nat ∧
    (length entries ≤ (if predicted req (serve1 req s).1 then 1 else 0)
                     + (if failed req (serve1 req s).1 then 1 else 0))%nat ∧
    (always_serialisable serialize_response →
     length entries = if predicted req (serve1 req s).1 then 1 else 0) ∧
    Forall (λ entry, level entry = "INFO") entries.
Proof.
  intros Hsinks. destruct req as [[body|]|]; unfold app.
  - destruct (PredictRequest_validate str_validator body) as [errs|r] eqn:Hr.
    { exists []. unfold post_predict. rewrite Hr. simpl.
      rewrite app_nil_r. close_log_step. }
    rewrite (post_predict_valid _ _ _ _ _ _ _ _ _ Hr). simpl.
    rewrite predict_run.
    destruct (infer_scores _ _) as [e|sc];
      [exists []; simpl; rewrite app_nil_r; close_log_step|].
    destruct (infer_label _ _) as [e|l];
      [exists []; simpl; rewrite app_nil_r; close_log_step|].
    simpl. rewrite Hsinks. eexists [_]. split; [done|].
    destruct (serialize_response (response_of sc l)) as [json|] eqn:Hjson;
      [close_log_step|].
    split_and!; simpl; repeat case_bool_decide; try done; try lia;
      try (by repeat constructor).
    intros Hall. destruct (Hall sc l) as [json Hjson']. congruence.
  - exists []. simpl. rewrite app_nil_r. close_log_step.
  - exists []. simpl. rewrite app_nil_r. close_log_step.
Qed.

Lemma session_log reqs s :
  file_sinks s = 1 →
  ∃ entries,
    logfile (serve_all reqs s).2 = logfile s ++ entries ∧
    (count_predictions reqs (serve_all reqs s).1 ≤ length entries)%nat ∧
    (length entries ≤ count_predictions reqs (serve_all reqs s).1
                     + count_failures reqs (serve_all reqs s).1)%nat ∧
    (always_serialisable serialize_response →
     length entries = count_predictions reqs (serve_all reqs s).1) ∧
    Forall (λ entry, level entry = "INFO") entries ∧
    file_sinks (serve_all reqs s).2 = 1.
Proof.
  revert s. induction reqs as [|req reqs IH]; intros s Hsinks; simpl.
  { exists []. rewrite app_nil_r. by split_and!. }
  destruct (app_log_step req s Hsinks)
    as (es1 & Hlog1 & Hlo1 & Hhi1 & Heq1 & Hall1).
  pose proof (app_file_sinks clf monotonic now fl str_validator
                serialize_response req s) as Hs1.
  destruct (serve1 req s) as [resp s1]. simpl in *.
  rewrite Hsinks in Hs1.
  destruct (IH s1 Hs1) as (es2 & Hlog2 & Hlo2 & Hhi2 & Heq2 & Hall2 & Hs2).
  destruct (serve_all reqs s1) as [resps s2]. simpl in *.
  exists (es1 ++ es2). rewrite length_app. split_and!.
  - by rewrite Hlog2, Hlog1, app_assoc.
  - lia.
  - lia.
  - intros Hser. rewrite (Heq1 Hser), (Heq2 Hser). done.
  - by apply Forall_app.
  - done.
Qed.
End session_facts.

Lemma toy_always_serialisable : always_serialisable Toy.serialize_response.
Proof. intros sc l. by eexists. Qed.

(** X10. While the service runs, the log file only grows.  Over any
    sequence of requests it gains one entry for every [POST /predict]
    answered with status 200 and at most one more for every
    [POST /predict] answered with a server error, the case of a response
    that was logged and could then not be serialised; [GET /] and rejected
    bodies leave no line.  Where every response of the handler can be
    serialised, the new entries are exactly as many as the predictions
    sent. *)
Theorem session_logs_one_entry_per_prediction
    clf monotonic now fl str_validator serialize_response reqs s :
  served clf monotonic now fl str_validator serialize_response s →
  let out :=
    session clf monotonic now fl str_validator serialize_response reqs s in
  ∃ entries,
    logfile out.2 = logfile s ++ entries ∧
    (count_predictions reqs out.1 ≤ length entries)%nat ∧
    (length entries ≤ count_predictions reqs out.1 + count_failures reqs out.1)%nat ∧
    (always_serialisable serialize_response →
     length entries = count_predictions reqs out.1).
Proof.
  intros Hserved%served_file_sinks out. subst out.
  destruct (session_log clf monotonic now fl str_validator
              serialize_response reqs s Hserved)
    as (entries & Hlog & Hlo & Hhi & Heq & _).
  by exists entries.
Qed.

Lemma session_logs_one_entry_per_prediction_witness :
  let reqs := [GetRoot; PostPredict (Some Toy.body);
               PostPredict (Some (PDict [])); PostPredict None;
               PostPredict (Some Toy.body)] in
  let out := session Toy.clf Toy.monotonic Toy.now Toy.fl Toy.str_validator
               Toy.serialize_response reqs Toy.started in
  count_predictions reqs out.1 = 2 ∧
  ∃ entries,
    logfile out.2 = logfile Toy.started ++ entries ∧ length entries = 2.
Proof.
  intros reqs out. split; [reflexivity|].
  destruct (session_logs_one_entry_per_prediction
              Toy.clf Toy.monotonic Toy.now Toy.fl Toy.str_validator
              Toy.serialize_response reqs Toy.started toy_served)
    as (entries & Hlog & _ & _ & Hlen).
  exists entries. split; [exact Hlog|].
  exact (Hlen toy_always_serialisable).
Defined.

(** X11. From start to stop of a process that had no sink on the log file:
    the file gains the line of the startup hook, then the entries of the
    requests, then the line of the shutdown hook, in that order and
    nothing else.  The entries are one for every prediction sent and at
    most one more for every server error; where every response of the
    handler can be serialised they are exactly as many as the predictions
    sent.  The shutdown hook writes its line and leaves the sink
    attached. *)
Theorem lifecycle_log
    clf monotonic now fl str_validator serialize_response reqs s :
  file_sinks s = 0 →
  let out :=
    lifecycle clf monotonic now fl str_validator serialize_response reqs s in
  ∃ entries,
    logfile out.2 =
      logfile s
      ++ [{| level := "INFO"; message := PStr "Setup completed" |}]
      ++ entries
      ++ [{| level := "INFO"; message := PStr "Shutting down application" |}] ∧
    (count_predictions reqs out.1 ≤ length entries)%nat ∧
    (length entries ≤ count_predictions reqs out.1 + count_failures reqs out.1)%nat ∧
    (always_serialisable serialize_response →
     length entries = count_predictions reqs out.1) ∧
    Forall (λ entry, level entry = "INFO") entries ∧
    file_sinks out.2 = 1.
Proof.
  intros Hsinks out. subst out. unfold lifecycle.
  assert (file_sinks (startup_event s).2 = 1) as Hstarted
    by (simpl; by rewrite Hsinks).
  destruct (session_log clf monotonic now fl str_validator serialize_response
              reqs _ Hstarted)
    as (entries & Hlog & Hlo & Hhi & Heq & Hall & Hs2).
  destruct (session _ _ _ _ _ _ reqs _) as [resps s2]. simpl in *.
  exists entries. rewrite Hlog, Hs2, Hsinks. simpl.
  split_and!; [|done..]. by rewrite <- !app_assoc.
Qed.

Lemma lifecycle_log_witness :
  let out := lifecycle Toy.clf Toy.monotonic Toy.now Toy.fl Toy.str_validator
               Toy.serialize_response
               [PostPredict (Some Toy.body); GetRoot] Toy.fresh in
  ∃ entries,
    logfile out.2 =
      [{| level := "INFO"; message := PStr "Setup completed" |}]
      ++ entries
      ++ [{| level := "INFO"; message := PStr "Shutting down application" |}] ∧
    length entries = 1.
Proof.
  intros out.
  destruct (lifecycle_log
              Toy.clf Toy.monotonic Toy.now Toy.fl Toy.str_validator
              Toy.serialize_response
              [PostPredict (Some Toy.body); GetRoot] Toy.fresh eq_refl)
    as (entries & Hlog & _ & _ & Hlen & _).
  exists entries. split; [exact Hlog|].
  exact (Hlen toy_always_serialisable).
Defined.

(** ** Requests and responses on the wire *)

(** X12. The dictionary of a request, as [request.dict()] gives it and as
    the log record holds it, reads back as that request: building a
    [PredictRequest] from it returns the request it came from. *)
Theorem request_dict_validates_back str_validator r :
  (∀ x, str_validator (PStr x) = Some x) →
  PredictRequest_validate str_validator (request_body r) = inr r.
Proof.
  intros Hstr. destruct r as [so u t de].
  apply PredictRequest_validate_inr. unfold validate_field. simpl.
  by rewrite !Hstr.
Qed.

Lemma request_dict_validates_back_witness :
  PredictRequest_validate Toy.str_validator (request_body Toy.request)
  = inr Toy.request.
Proof.
  apply (request_dict_validates_back Toy.str_validator Toy.request).
  reflexivity.
Defined.

(** ** The classifier as built at import *)

(** X13. A classifier that [__init__] has built scores a description with
    the two objects that were loaded: the description goes to the loaded
    embedding model, the embedding to the loaded classifier, and the
    scores pair the classes of that classifier with the first row it
    returned.  When a load fails there is no classifier: the exception of
    the load is the outcome, the embedding model being loaded first. *)
Theorem init_then_predict_proba env config :
  let name := sentence_transformer_model_name (cfg_featurizer config) in
  let path := serialized_model_path config in
  (∀ st model self doc v probs rows model_input s,
     load_SentenceTransformer env name = inr st →
     joblib_load env path = inr model →
     NewsCategoryClassifier_init env config = inr self →
     Dict.get "description" model_input = Some doc →
     encode st doc = inr v →
     clf_predict_proba model [v] = inr (probs :: rows) →
     predict_proba self model_input s =
       (inr (Dict.of_pairs (py_zip (clf_classes_ model) probs)),
        add_events [EvEncode doc; EvPredictProba [v]] s)) ∧
  (∀ e, load_SentenceTransformer env name = inl e →
        NewsCategoryClassifier_init env config = inl e) ∧
  (∀ st e, load_SentenceTransformer env name = inr st →
           joblib_load env path = inl e →
           NewsCategoryClassifier_init env config = inl e).
Proof.
  intros name path. unfold NewsCategoryClassifier_init. fold name path.
  split_and!.
  - intros st model self doc v probs rows model_input s Hst Hmodel.
    rewrite Hst, Hmodel. intros [= <-] Hdoc Hv Hrows.
    rewrite (predict_proba_run _ _ _ _ Hdoc).
    unfold infer_scores, scores_events, embedder_of, Pipeline_classes_. simpl.
    by rewrite Hv, Hrows.
  - by intros e ->.
  - by intros st e -> ->.
Qed.

Lemma init_then_predict_proba_witness :
  ∃ self,
    NewsCategoryClassifier_init sample_loaders GLOBAL_CONFIG = inr self ∧
    predict_proba self (PredictRequest_dict Toy.request) Toy.fresh =
      (inr (Dict.of_pairs
              (py_zip Toy.categories [Toy.quarter; Toy.three_quarters])),
       add_events [EvEncode (description Toy.request);
                   EvPredictProba [[Qc_of_Z 33]]] Toy.fresh).
Proof.
  eexists. split; [reflexivity|].
  apply (proj1 (init_then_predict_proba sample_loaders GLOBAL_CONFIG)
           Toy.embedder Toy.estimator _ (description Toy.request)
           [Qc_of_Z 33] [Toy.quarter; Toy.three_quarters] []);
    reflexivity.
Defined.

(** ** The layout of timestamps *)

Lemma string_app_cons c a b : String c a +:+ b = String c (a +:+ b).
Proof. reflexivity. Qed.

Lemma string_length_app a b :
  String.length (a +:+ b) = String.length a + String.length b.
Proof.
  induction a as [|c a IH]; [done|].
  rewrite string_app_cons. simpl. by rewrite IH.
Qed.

Lemma string_app_inj_length a a' b b' :
  String.length a = String.length a' →
  a +:+ b = a' +:+ b' → a = a' ∧ b = b'.
Proof.
  revert a'. induction a as [|c a IH]; intros [|c' a']; simpl; try done.
  intros [= Hlen]. rewrite !string_app_cons. intros [= -> Heq].
  destruct (IH a' Hlen Heq) as [-> ->]. done.
Qed.

(** Two digits: every value below one hundred, by enumeration. *)
Lemma zero_pad_2_length (n : nat) :
  (n ≤ 99)%nat → String.length (zero_pad 2 n) = 2.
Proof.
  intros Hn.
  assert (Forall (λ n, String.length (zero_pad 2 n) = 2) (seq 0 100)) as Hall
    by (apply (bool_decide_unpack _); by vm_compute).
  rewrite Forall_forall in Hall. apply Hall, elem_of_seq. lia.
Qed.

Lemma zero_pad_2_inj (n m : nat) :
  (n ≤ 99)%nat → (m ≤ 99)%nat → zero_pad 2 n = zero_pad 2 m → n = m.
Proof.
  intros Hn Hm Heq.
  assert (NoDup (zero_pad 2 <$> seq 0 100)) as Hnd
    by (apply (bool_decide_unpack _); by vm_compute).
  apply (NoDup_lookup _ n m (zero_pad 2 n) Hnd).
  - rewrite list_lookup_fmap, lookup_seq_lt by lia. done.
  - rewrite list_lookup_fmap, lookup_seq_lt by lia. simpl. by rewrite Heq.
Qed.

(** Four digits: every year from 1000 to 9999, by enumeration. *)
Lemma zero_pad_4_year y :
  (1000 ≤ Z.of_nat y ≤ 9999)%Z →
  String.length (zero_pad 4 y) = 4 ∧ zero_pad 4 y = pretty y.
Proof.
  intros Hy.
  assert (forallb (λ y : nat, Nat.eqb (String.length (pretty y)) 4)
            (seq 1000 (9 * 1000)) = true) as Hall by (by vm_compute).
  rewrite forallb_forall in Hall.
  assert (String.length (pretty y) = 4) as Hlen.
  { apply Nat.eqb_eq, Hall, in_seq. lia. }
  unfold zero_pad. cbv zeta. rewrite Hlen.
  by change (String.concat "" (replicate (4 - 4) "0") +:+ pretty y)
    with (pretty y).
Qed.

(** X14. The timestamp of a log record has a fixed width: for the dates
    and times the clock gives, [strftime] with the format of the handler
    returns nineteen characters. *)
Theorem strftime_fixed_width dt :
  valid_datetime dt → String.length (strftime dt) = 19.
Proof.
  intros (Hy & Hmo & Hd & Hh & Hmi & Hs). unfold strftime.
  rewrite !string_length_app.
  rewrite (proj1 (zero_pad_4_year _ Hy)).
  rewrite !zero_pad_2_length by lia. done.
Qed.

Lemma strftime_fixed_width_witness :
  String.length (strftime (Toy.now 7)) = 19.
Proof.
  apply (strftime_fixed_width (Toy.now 7)).
  unfold valid_datetime. simpl. repeat split; lia.
Defined.

(** X15. The timestamp tells the second: two dates and times of the clock
    that are written alike are the same, year, month, day, hour, minute
    and second. *)
Theorem strftime_inj dt1 dt2 :
  valid_datetime dt1 → valid_datetime dt2 →
  strftime dt1 = strftime dt2 → dt1 = dt2.
Proof.
  intros (Hy1 & Hmo1 & Hd1 & Hh1 & Hmi1 & Hs1)
         (Hy2 & Hmo2 & Hd2 & Hh2 & Hmi2 & Hs2).
  destruct dt1 as [y1 mo1 d1 h1 mi1 s1], dt2 as [y2 mo2 d2 h2 mi2 s2].
  unfold strftime. simpl in *. intros Heq.
  destruct (zero_pad_4_year _ Hy1) as [Hlen1 Hpretty1].
  destruct (zero_pad_4_year _ Hy2) as [Hlen2 Hpretty2].
  apply string_app_inj_length in Heq as [Hy Heq]; [|congruence].
  apply string_app_inj_length in Heq as [_ Heq]; [|done].
  apply string_app_inj_length in Heq as [Hmo Heq];
    [|by rewrite !zero_pad_2_length by lia].
  apply string_app_inj_length in Heq as [_ Heq]; [|done].
  apply string_app_inj_length in Heq as [Hd Heq];
    [|by rewrite !zero_pad_2_length by lia].
  apply string_app_inj_length in Heq as [_ Heq]; [|done].
  apply string_app_inj_length in Heq as [Hh Heq];
    [|by rewrite !zero_pad_2_length by lia].
  apply string_app_inj_length in Heq as [_ Heq]; [|done].
  apply string_app_inj_length in Heq as [Hmi Heq];
    [|by rewrite !zero_pad_2_length by lia].
  apply string_app_inj_length in Heq as [_ Hs]; [|done].
  rewrite Hpretty1, Hpretty2 in Hy. apply (inj pretty) in Hy.
  apply zero_pad_2_inj in Hmo, Hd, Hh, Hmi, Hs; try lia.
  congruence.
Qed.

Lemma strftime_inj_witness : Toy.now 7 = Toy.now 67.
Proof.
  apply (strftime_inj (Toy.now 7) (Toy.now 67)).
  - unfold valid_datetime. simpl. repeat split; lia.
  - unfold valid_datetime. simpl. repeat split; lia.
  - reflexivity.
Defined.
